(** * Session lifecycle and process orchestration of the Telegram relay

    A shallow embedding of [src/relay.ts]: the session engine
    ([shouldCloseSession], [closeSession], [trackMessage], [trackResponse]),
    the per-user concurrency gate ([isUserBusy], [markUserBusy],
    [markUserFree]) and the timeout path of [callClaude].

    Also embedded: the child process registry and the orphan cleanup, the
    instance lock, the splitting of long replies, the [/new] command, the
    shutdown handler and the text message handler.

    Modelling conventions.
    - A JavaScript string that ends up in the transcript is a list of code
      units ([jsstring]); opaque identifiers (user ids, chat ids, session
      ids, close reasons) are [string]s.
    - JavaScript numbers that hold counts, lengths, indices and millisecond
      clocks are [Z].
    - An ISO timestamp produced by [toISOString] is represented by the
      millisecond value [getTime] reads back from it.
    - The module-level [session] variable, the session file and the detached
      background jobs form the [World] threaded through a small state monad.
      Each operation runs to completion before the next one starts, and
      writes to the local state files succeed. *)

From Stdlib Require Import ZArith List Ascii String Bool Lia.
From stdpp Require Import base gmap strings pretty.
Import ListNotations.

Open Scope Z_scope.

(** ** JavaScript strings *)

Definition jsstring : Type := list ascii.

Definition lit (s : string) : jsstring := list_ascii_of_string s.

(** [s.length] *)
Definition js_length (s : jsstring) : Z := Z.of_nat (length s).

(** Does [p] occur at the very beginning of [s]? *)
Fixpoint isPrefix (p s : jsstring) : bool :=
  match p, s with
  | [], _ => true
  | _ :: _, [] => false
  | a :: p', b :: s' => Ascii.eqb a b && isPrefix p' s'
  end.

(** Offset of the first occurrence of [p] in [s], scanning left to right. *)
Fixpoint findFirst (p s : jsstring) : option nat :=
  if isPrefix p s then Some 0%nat
  else match s with
       | [] => None
       | _ :: s' => option_map S (findFirst p s')
       end.

(** [s.indexOf(p, from)]: the start position is clamped to [0, s.length];
    the answer is the least index at or after it where [p] occurs, or -1. *)
Definition indexOf (s p : jsstring) (from : Z) : Z :=
  let k := Z.to_nat (Z.min (Z.max from 0) (js_length s)) in
  match findFirst p (skipn k s) with
  | Some i => Z.of_nat (k + i)
  | None => -1
  end.

(** [s.substring(start)]: [start] is clamped to [0, s.length]. *)
Definition substring (s : jsstring) (start : Z) : jsstring :=
  skipn (Z.to_nat (Z.min (Z.max start 0) (js_length s))) s.

(** [s.substring(0, stop)] *)
Definition substring0 (s : jsstring) (stop : Z) : jsstring :=
  firstn (Z.to_nat (Z.min (Z.max stop 0) (js_length s))) s.

Definition newline : ascii := ascii_of_nat 10.

(** The two-character blank-line separator ["\n\n"]. *)
Definition NL2 : jsstring := [newline; newline].

(** ** Configuration *)

(** The environment-derived settings of the deployment. [supabase] tells
    whether the durable store client was created. *)
Record Config := mkConfig {
  SESSION_MAX_MESSAGES : Z;
  SESSION_IDLE_TIMEOUT_MIN : Z;
  supabase : bool
}.

(** The values used when the environment sets nothing. *)
Definition defaultConfig : Config :=
  {| SESSION_MAX_MESSAGES := 30; SESSION_IDLE_TIMEOUT_MIN := 30; supabase := false |}.

Definition TRANSCRIPT_MAX_BYTES : Z := 50 * 1024.

Definition CLAUDE_TIMEOUT_MS : Z := 5 * 60 * 1000.

(** ** Session state *)

Record SessionState := mkSession {
  sessionId : option string;
  lastActivity : Z;
  messageCount : Z;
  transcript : jsstring;
  chatId : option string;
  userIds : list string;
  startedAt : Z
}.

Definition newSessionState (now : Z) : SessionState :=
  {| sessionId := None;
     lastActivity := now;
     messageCount := 0;
     transcript := [];
     chatId := None;
     userIds := [];
     startedAt := now |}.

Inductive CloseReason := idle | limit.

Definition reasonString (r : CloseReason) : string :=
  match r with idle => "idle" | limit => "limit" end.

(** The closed session handed to the detached archival job: the snapshot,
    its message count and the close reason captured by the closure. *)
Record ArchiveJob := mkJob {
  job_snapshot : SessionState;
  job_count : Z;
  job_reason : string
}.

(** ** The world and its state monad *)

Inductive Signal := SIGTERM | SIGKILL.

(** A signal delivered to a process, stamped with the clock reading. *)
Record Sent := mkSent { sent_at : Z; sent_pid : Z; sent_signal : Signal }.

Record World := mkWorld {
  session : SessionState;
  sessionFile : option SessionState;
  background : list ArchiveJob;
  childPids : list Z;
  signals : list Sent
}.

Definition M (A : Type) : Type := World -> A * World.

Definition ret {A} (a : A) : M A := fun w => (a, w).

Definition bind {A B} (m : M A) (k : A -> M B) : M B :=
  fun w => let (a, w') := m w in k a w'.

Notation "'let*' x := m 'in' k" := (bind m (fun x => k))
  (at level 10, x name, m at level 100, k at level 200).
Notation "m >> k" := (bind m (fun _ => k))
  (at level 100, k at level 200, right associativity).

Definition getSession : M SessionState := fun w => (session w, w).

Definition setSession (s : SessionState) : M unit :=
  fun w => (tt, {| session := s; sessionFile := sessionFile w;
                   background := background w;
                   childPids := childPids w; signals := signals w |}).

(** [saveSession(state)] rewrites the session file. *)
Definition saveSession (s : SessionState) : M unit :=
  fun w => (tt, {| session := session w; sessionFile := Some s;
                   background := background w;
                   childPids := childPids w; signals := signals w |}).

(** [void (async () => ...)()]: the job is started and not awaited. *)
Definition detach (j : ArchiveJob) : M unit :=
  fun w => (tt, {| session := session w; sessionFile := sessionFile w;
                   background := background w ++ [j];
                   childPids := childPids w; signals := signals w |}).

(** [saveChildPids(pids)] rewrites the child registry file. *)
Definition saveChildPids (pids : list Z) : M unit :=
  fun w => (tt, {| session := session w; sessionFile := sessionFile w;
                   background := background w;
                   childPids := pids; signals := signals w |}).

Definition loadChildPids : M (list Z) := fun w => (childPids w, w).

(** [proc.kill(sig)] at clock reading [t]. *)
Definition kill (pid : Z) (sig : Signal) (t : Z) : M unit :=
  fun w => (tt, {| session := session w; sessionFile := sessionFile w;
                   background := background w;
                   childPids := childPids w;
                   signals := signals w ++ [mkSent t pid sig] |}).

Definition exec {A} (m : M A) (w : World) : World := snd (m w).
Definition eval {A} (m : M A) (w : World) : A := fst (m w).

(** A process that starts with no session file. *)
Definition bootWorld (now : Z) : World :=
  {| session := newSessionState now; sessionFile := None; background := [];
     childPids := []; signals := [] |}.

(** ** Session lifecycle *)

Section Lifecycle.

Context (cfg : Config).

Definition shouldCloseSession (now : Z) (s : SessionState) : option CloseReason :=
  if messageCount s >=? SESSION_MAX_MESSAGES cfg then Some limit
  else
    let idleMs := now - lastActivity s in
    if (messageCount s >? 0) && (idleMs >? SESSION_IDLE_TIMEOUT_MIN cfg * 60 * 1000)
    then Some idle
    else None.

Definition closeSession (reason : string) (now : Z) : M Z :=
  let* snapshot := getSession in
  let count := messageCount snapshot in
  setSession (newSessionState now) >>
  let* s := getSession in
  saveSession s >>
  (if supabase cfg && (js_length (transcript snapshot) >? 0)
   then detach {| job_snapshot := snapshot; job_count := count; job_reason := reason |}
   else ret tt) >>
  ret count.

(** The cap policy both recorders apply after appending. *)
Definition truncateTranscript (t : jsstring) : jsstring :=
  if js_length t >? TRANSCRIPT_MAX_BYTES then
    let cutPoint := indexOf t NL2 (js_length t - TRANSCRIPT_MAX_BYTES) in
    if cutPoint >? -1 then substring t (cutPoint + 2)
    else substring t (js_length t - TRANSCRIPT_MAX_BYTES)
  else t.

Definition includes (l : list string) (x : string) : bool :=
  existsb (String.eqb x) l.

(** The line appended for an inbound message. *)
Definition messageEntry (userName text : jsstring) : jsstring :=
  userName ++ lit ": " ++ text ++ NL2.

(** The line appended for an assistant reply. *)
Definition responseEntry (response : jsstring) : jsstring :=
  lit "Assistant: " ++ response ++ NL2.

(** The field updates of [trackMessage], from the increment to the cap.
    [startedAt] always holds a [toISOString] result, a non-empty string,
    so the [!session.startedAt] disjunct of the source never fires and the
    start time is rewritten exactly when the count has just become 1. *)
Definition recordMessage (text userName : jsstring) (userId chat : string) (now : Z)
    (s : SessionState) : SessionState :=
  let count := messageCount s + 1 in
  {| sessionId := sessionId s;
     lastActivity := now;
     messageCount := count;
     transcript := truncateTranscript (transcript s ++ messageEntry userName text);
     chatId := Some chat;
     userIds := if includes (userIds s) userId then userIds s else userIds s ++ [userId];
     startedAt := if count =? 1 then now else startedAt s |}.

Definition trackMessage (text userName : jsstring) (userId chat : string) (now : Z) : M unit :=
  let* s0 := getSession in
  (match shouldCloseSession now s0 with
   | Some closeReason => closeSession (reasonString closeReason) now >> ret tt
   | None => ret tt
   end) >>
  let* s := getSession in
  let s' := recordMessage text userName userId chat now s in
  setSession s' >>
  saveSession s'.

(** The field update of [trackResponse]. *)
Definition recordResponse (response : jsstring) (s : SessionState) : SessionState :=
  {| sessionId := sessionId s;
     lastActivity := lastActivity s;
     messageCount := messageCount s;
     transcript := truncateTranscript (transcript s ++ responseEntry response);
     chatId := chatId s;
     userIds := userIds s;
     startedAt := startedAt s |}.

Definition trackResponse (response : jsstring) : M unit :=
  let* s := getSession in
  let s' := recordResponse response s in
  setSession s' >>
  saveSession s'.

(** The session-id assignment of [callClaude] after a successful
    non-internal call whose output carries a [session_id]. *)
Definition assignSessionId (id : string) (now : Z) : M unit :=
  let* s := getSession in
  let s' :=
    {| sessionId := Some id;
       lastActivity := now;
       messageCount := messageCount s;
       transcript := transcript s;
       chatId := chatId s;
       userIds := userIds s;
       startedAt := startedAt s |} in
  setSession s' >>
  saveSession s'.

End Lifecycle.

(** ** The detached archival job *)

(** The row inserted into the [telegram_sessions] table. *)
Record ArchiveRow := mkRow {
  conversation_id : option string;
  chat_id : option string;
  user_ids : list string;
  row_transcript : jsstring;
  message_count : Z;
  close_reason : string;
  closed_at : Z
}.

(** The requests the job sends out. *)
Inductive StoreCall :=
| InsertSession (row : ArchiveRow)
| SummaryRequest (prompt : jsstring)
| UpdateSummary (rowId : Z) (summary : jsstring).

(** What the outside answers: the id of the inserted row ([None] when the
    insert reports an error or throws) and the text [callClaude] returns for
    the summary prompt. *)
Record StoreReplies := mkReplies {
  insertReply : option Z;
  summaryReply : jsstring
}.

Definition summaryPrompt (t : jsstring) : jsstring :=
  lit "Summarize this conversation transcript in 2-3 sentences. Focus on decisions made, tasks completed, and open items. Be concise."
  ++ NL2 ++ substring0 t 8000.

Definition runArchiveJob (closedAt : Z) (r : StoreReplies) (j : ArchiveJob) : list StoreCall :=
  let snapshot := job_snapshot j in
  InsertSession {| conversation_id := sessionId snapshot;
                   chat_id := chatId snapshot;
                   user_ids := userIds snapshot;
                   row_transcript := transcript snapshot;
                   message_count := job_count j;
                   close_reason := job_reason j;
                   closed_at := closedAt |}
  :: match insertReply r with
     | None => []
     | Some rowId =>
         [SummaryRequest (summaryPrompt (transcript snapshot));
          UpdateSummary rowId (summaryReply r)]
     end.

(** Every request the detached jobs of a world send to the durable store and
    to the assistant. *)
Definition storeTraffic (closedAt : Z) (r : StoreReplies) (w : World) : list StoreCall :=
  flat_map (runArchiveJob closedAt r) (background w).

(** ** Per-user concurrency *)

(** [userId] has type [string | undefined]; the empty string and
    [undefined] are the falsy values. *)
Definition truthy (userId : option string) : bool :=
  match userId with
  | Some u => negb (String.eqb u "")
  | None => false
  end.

Definition isUserBusy (userId : option string) (activeRequests : gmap string bool) : bool :=
  match userId with
  | Some u =>
      truthy userId &&
      match activeRequests !! u with
      | Some true => true
      | _ => false
      end
  | None => false
  end.

Definition markUserBusy (userId : option string) (activeRequests : gmap string bool)
  : gmap string bool :=
  match userId with
  | Some u => if truthy userId then <[u := true]> activeRequests else activeRequests
  | None => activeRequests
  end.

Definition markUserFree (userId : option string) (activeRequests : gmap string bool)
  : gmap string bool :=
  match userId with
  | Some u => if truthy userId then delete u activeRequests else activeRequests
  | None => activeRequests
  end.

(** The admission step every message handler starts with: a busy user is
    turned away at once, anybody else is marked busy and admitted. *)
Definition tryAcquire (userId : option string) (activeRequests : gmap string bool)
  : bool * gmap string bool :=
  if isUserBusy userId activeRequests then (false, activeRequests)
  else (true, markUserBusy userId activeRequests).

(** The [finally] step of every handler. *)
Definition release (userId : option string) (activeRequests : gmap string bool)
  : gmap string bool :=
  markUserFree userId activeRequests.

(** ** Calling the assistant *)

(** How a block of code ends: with a value, or by throwing. *)
Inductive completion (A : Type) :=
| Normal (a : A)
| Thrown (err : string).
Arguments Normal {A} a.
Arguments Thrown {A} err.

(** The options that steer the control flow of [callClaude]; [imagePath]
    and [userId] only shape the command line. *)
Record ClaudeOptions := mkOptions { resume : bool; internal : bool }.

(** The fields read from the assistant's JSON output. *)
Record ClaudeJson := mkJson {
  json_result : option jsstring;
  json_session_id : option string
}.

(** Everything the spawned process and the operating system decide:
    whether [spawn] yields a process, after how many milliseconds the read
    of its standard output settles (never, for [None]) and with which text
    ([None] when the read rejects), its standard error and exit status,
    whether a liveness probe at a given clock reading finds it alive, and
    what [JSON.parse] makes of a text. *)
Record ProcEnv := mkEnv {
  spawnPid : option Z;
  stdoutAfter : option Z;
  stdoutText : option jsstring;
  stderrText : jsstring;
  exitCode : Z;
  aliveAt : Z -> bool;
  parseJSON : jsstring -> option ClaudeJson
}.

Definition TIMEOUT_REPLY : jsstring :=
  lit "Claude timed out after 5 minutes. Please try again.".

Definition SPAWN_ERROR_REPLY : jsstring :=
  lit "Error: Could not run Claude CLI".

(** The code units below 256 that [trim] strips: tab, line feed, vertical
    tab, form feed, carriage return (9 to 13), space (32) and no-break
    space (160). *)
Definition isWhite (c : ascii) : bool :=
  let n := nat_of_ascii c in
  (Nat.eqb n 32 || (Nat.leb 9 n && Nat.leb n 13) || Nat.eqb n 160)%bool.

Fixpoint trimStart (s : jsstring) : jsstring :=
  match s with
  | c :: s' => if isWhite c then trimStart s' else s
  | [] => []
  end.

(** [s.trim()]: white space and line terminators are stripped at both
    ends. *)
Definition trim (s : jsstring) : jsstring :=
  rev (trimStart (rev (trimStart s))).

Definition registerChildPid (pid : Z) : M unit :=
  let* pids := loadChildPids in
  saveChildPids (pids ++ [pid]).

Definition unregisterChildPid (pid : Z) : M unit :=
  let* pids := loadChildPids in
  saveChildPids (List.filter (fun p => negb (p =? pid)) pids).

(** The inner timer: probe the process, and kill it if the probe passes. *)
Definition escalate (env : ProcEnv) (pid t : Z) : M unit :=
  if aliveAt env t then kill pid SIGKILL t else ret tt.

(** The timeout timer: terminate, arm the inner timer for 5000 ms later. *)
Definition onTimeout (env : ProcEnv) (pid t : Z) : M unit :=
  kill pid SIGTERM t >>
  escalate env pid (t + 5000).

(** How [Promise.race] between the read of standard output and the timeout
    promise settles. *)
Inductive RaceResult :=
| Resolved (output : jsstring)
| Rejected
| TimedOut.

Definition raceStdout (env : ProcEnv) : RaceResult :=
  match stdoutAfter env with
  | Some d =>
      if d <? CLAUDE_TIMEOUT_MS then
        match stdoutText env with
        | Some output => Resolved output
        | None => Rejected
        end
      else TimedOut
  | None => TimedOut
  end.

Definition orElse (s fallback : jsstring) : jsstring :=
  match s with [] => fallback | _ => s end.

(** The block guarded by [finally { unregisterChildPid }]; [t0] is the
    clock reading when the race starts. *)
Definition awaitClaude (env : ProcEnv) (opts : ClaudeOptions) (pid t0 : Z)
  : M (completion jsstring) :=
  match raceStdout env with
  | TimedOut =>
      onTimeout env pid (t0 + CLAUDE_TIMEOUT_MS) >>
      ret (Normal TIMEOUT_REPLY)
  | Rejected => ret (Thrown "stdout")
  | Resolved output =>
      if negb (exitCode env =? 0) then
        ret (Normal (lit "Error: " ++
                     orElse (stderrText env)
                            (lit "Claude exited with code " ++ lit (pretty (exitCode env)))))
      else
        match parseJSON env output with
        | Some json =>
            (match json_session_id json with
             | Some id =>
                 if truthy (Some id) && negb (internal opts)
                 then assignSessionId id (t0 + default 0 (stdoutAfter env))
                 else ret tt
             | None => ret tt
             end) >>
            ret (Normal (orElse (default [] (json_result json)) (lit "No response")))
        | None => ret (Normal (trim output))
        end
  end.

(** [callClaude] from the [spawn] on: the command line and the audit log
    entry written before it have no part in what follows. *)
Definition callClaude (env : ProcEnv) (opts : ClaudeOptions) (t0 : Z)
  : M (completion jsstring) :=
  match spawnPid env with
  | None => ret (Normal SPAWN_ERROR_REPLY)
  | Some pid =>
      registerChildPid pid >>
      let* r := awaitClaude env opts pid t0 in
      unregisterChildPid pid >>
      match r with
      | Normal reply => ret (Normal reply)
      | Thrown _ => ret (Normal SPAWN_ERROR_REPLY)
      end
  end.

(** ** Operations on the session and their histories *)

(** The ways the running relay touches the session. *)
Inductive Op :=
| TrackMessage (text userName : jsstring) (userId chat : string) (now : Z)
| TrackResponse (response : jsstring)
| CloseSession (reason : string) (now : Z)
| AssignSessionId (id : string) (now : Z).

Definition step (cfg : Config) (op : Op) : M unit :=
  match op with
  | TrackMessage text userName userId chat now => trackMessage cfg text userName userId chat now
  | TrackResponse response => trackResponse response
  | CloseSession reason now => closeSession cfg reason now >> ret tt
  | AssignSessionId id now => assignSessionId id now
  end.

Fixpoint run (cfg : Config) (ops : list Op) (w : World) : World :=
  match ops with
  | [] => w
  | op :: rest => run cfg rest (exec (step cfg op) w)
  end.

(** The worlds a freshly booted relay can get into. *)
Inductive reachable (cfg : Config) : World -> Prop :=
| reach_boot now : reachable cfg (bootWorld now)
| reach_step w op : reachable cfg w -> reachable cfg (exec (step cfg op) w).

(** What an operation writes before the separator, if it records anything. *)
Definition entryBody (op : Op) : option jsstring :=
  match op with
  | TrackMessage text userName _ _ _ => Some (userName ++ lit ": " ++ text)
  | TrackResponse response => Some (lit "Assistant: " ++ response)
  | _ => None
  end.

(** The entries a sequence of operations appends, oldest first. *)
Fixpoint entriesOf (ops : list Op) : list jsstring :=
  match ops with
  | [] => []
  | op :: rest =>
      match entryBody op with
      | Some b => (b ++ NL2) :: entriesOf rest
      | None => entriesOf rest
      end
  end.

(** [t] consists of whole entries: it is what is left of the history after
    dropping some number of its oldest entries. *)
Definition entryAligned (entries : list jsstring) (t : jsstring) : Prop :=
  exists k : nat, t = concat (skipn k entries).

Fixpoint entryAlignedb (entries : list jsstring) (t : jsstring) : bool :=
  bool_decide (t = concat entries)
  || match entries with
     | [] => false
     | _ :: rest => entryAlignedb rest t
     end.

(** [p] occurs in [s] at index [i]. *)
Definition occursAt (p s : jsstring) (i : nat) : Prop :=
  firstn (length p) (skipn i s) = p.

(** A body is tidy when it is not empty, neither starts nor ends with a
    line feed, and contains no blank line. *)
Definition tidy (b : jsstring) : bool :=
  match b with
  | [] => false
  | c :: _ => negb (Ascii.eqb c newline)
  end
  && negb (Ascii.eqb (List.last b " "%char) newline)
  && match findFirst NL2 b with
     | None => true
     | Some _ => false
     end.

Definition tidyOp (op : Op) : bool :=
  match entryBody op with
  | Some b => tidy b
  | None => true
  end.

(** The session [trackMessage] records into: a fresh one when the closure
    check fires, the live one otherwise. *)
Definition afterClosure (cfg : Config) (now : Z) (s : SessionState) : SessionState :=
  match shouldCloseSession cfg now s with
  | Some _ => newSessionState now
  | None => s
  end.

(** An entry of the history is tidy when it is a tidy body followed by the
    separator. *)
Definition tidyEntry (e : jsstring) : Prop :=
  exists b, e = b ++ NL2 /\ tidy b = true.

(** No blank line shows up in [x], not even when a line feed follows it. *)
Definition quiet (x : jsstring) : Prop :=
  findFirst NL2 (x ++ [newline]) = None.

(** A message sent at time [now] by one fixed user. *)
Definition ping (now : Z) : Op :=
  TrackMessage (lit "ping") (lit "User") "8493500703" "8493500703" now.

(** A reply of two paragraphs, the first as long as the cap. *)
Definition twoParagraphs : jsstring :=
  repeat "b"%char (Z.to_nat TRANSCRIPT_MAX_BYTES) ++ NL2 ++ lit "tail".

(** A one-line message longer than the cap. *)
Definition longLine : jsstring :=
  repeat "a"%char (Z.to_nat TRANSCRIPT_MAX_BYTES + 1).

(** A one-line reply twenty characters short of the cap. *)
Definition longReply : jsstring :=
  repeat "b"%char (Z.to_nat (TRANSCRIPT_MAX_BYTES - 20)).

(** The read of standard output is still pending when the timeout has
    passed. *)
Definition exceedsTimeout (env : ProcEnv) : Prop :=
  match stdoutAfter env with
  | None => True
  | Some d => CLAUDE_TIMEOUT_MS < d
  end.

(** An assistant process that hangs and ignores the termination signal. *)
Definition hungProcess : ProcEnv :=
  {| spawnPid := Some 4242;
     stdoutAfter := None;
     stdoutText := None;
     stderrText := [];
     exitCode := 0;
     aliveAt := fun _ => true;
     parseJSON := fun _ => None |}.

(** ** Orphan cleanup at startup *)

(** [for (const x of xs) body(x)] *)
Fixpoint forEach {A} (body : A -> M unit) (xs : list A) : M unit :=
  match xs with
  | [] => ret tt
  | x :: rest => body x >> forEach body rest
  end.

(** [cleanupOrphanedProcesses] at clock reading [t]. [probe pid t] tells
    whether [process.kill(pid, 0)] at [t] returns (the process is there) or
    throws. The loop runs without a pause, so all its probes and
    termination signals share the reading [t]; the timers it arms for the
    processes it found alive fire 5000 ms later, after the registry has
    been cleared. An empty registry is left alone. *)
Definition cleanupOrphanedProcesses (probe : Z -> Z -> bool) (t : Z) : M unit :=
  let* pids := loadChildPids in
  match pids with
  | [] => ret tt
  | _ :: _ =>
      forEach (fun pid => if probe pid t then kill pid SIGTERM t else ret tt) pids >>
      saveChildPids [] >>
      forEach (fun pid =>
                 if probe pid t then
                   if probe pid (t + 5000) then kill pid SIGKILL (t + 5000) else ret tt
                 else ret tt) pids
  end.

(** An assistant that answers within a second and reports its session. *)
Definition promptProcess : ProcEnv :=
  {| spawnPid := Some 4242;
     stdoutAfter := Some 900;
     stdoutText := Some (lit "{}");
     stderrText := [];
     exitCode := 0;
     aliveAt := fun _ => false;
     parseJSON := fun _ => Some {| json_result := Some (lit "done");
                                   json_session_id := Some "s-1"%string |} |}.

(** An assistant that fails at once without a word on standard error. *)
Definition failingProcess : ProcEnv :=
  {| spawnPid := Some 4242;
     stdoutAfter := Some 50;
     stdoutText := Some [];
     stderrText := [];
     exitCode := 2;
     aliveAt := fun _ => false;
     parseJSON := fun _ => None |}.

(** ** Splitting a long reply *)








(** ** Instance lock *)

(** What the lock code asks of its surroundings: what [parseInt] makes of a
    text ([None] for [NaN]), whether [process.kill(pid, 0)] finds a process
    (it throws for a dead one, and for [NaN]), and the id of the running
    process. *)
Record LockEnv := mkLockEnv {
  parseInt : jsstring -> option Z;
  pidAlive : Z -> bool;
  selfPid : Z
}.

(** [process.pid.toString()] *)
Definition pidText (pid : Z) : jsstring := lit (pretty pid).

(** [acquireLock]; the lock file is [None] when it does not exist. An
    empty file counts as no lock, a running owner refuses the caller, and
    anything else is overwritten with the caller's process id. *)
Definition acquireLock (env : LockEnv) (lockFile : option jsstring)
  : bool * option jsstring :=
  let existingLock := lockFile in
  let ownerRuns :=
    match existingLock with
    | Some (c :: content) =>
        match parseInt env (c :: content) with
        | Some pid => pidAlive env pid
        | None => false
        end
    | _ => false
    end in
  if ownerRuns then (false, lockFile)
  else (true, Some (pidText (selfPid env))).

(** [releaseLock]: the file is removed; a missing file is not an error. *)
Definition releaseLock (lockFile : option jsstring) : option jsstring := None.

(** The start of the relay as far as the lock goes: the handler installed
    with [process.on("exit", ...)] before the lock is requested removes the
    lock file when the process exits, and a refused request is followed by
    [process.exit(1)]. The result tells whether the relay runs, and what
    the lock file is then. *)
Definition startRelay (env : LockEnv) (lockFile : option jsstring)
  : bool * option jsstring :=
  let (acquired, file) := acquireLock env lockFile in
  if acquired then (true, file)
  else (false, None).

(** A stand-in for [parseInt] that reads the two process ids at hand. *)
Definition parsePids (s : jsstring) : option Z :=
  if bool_decide (s = lit "100") then Some 100
  else if bool_decide (s = lit "200") then Some 200
  else None.

(** ** The text message handler *)

(** The relay's state as the handlers see it: the world and the table of
    busy users. *)
Record Relay := mkRelay {
  world : World;
  activeRequests : gmap string bool
}.

Definition WAIT_REPLY : jsstring :=
  lit "I'm still working on your previous request. Please wait.".

Definition WRONG_REPLY : jsstring :=
  lit "Something went wrong processing your message.".

(** The handler of a text message from the busy check on, for a message
    that is to be answered. A busy sender gets the wait message. Anybody
    else is marked busy and a detached task is started: it first sends the
    typing notification, outside of any [try]; when that call fails
    ([typingOk] is false) the task ends there. Otherwise the message is
    recorded at clock reading [now], the assistant is started at [t0], and
    what it returns is recorded and handed to [sendResponse]; the [finally]
    step then frees the sender. [during] are the session operations that
    other handlers perform while this one waits for the assistant.
    [userName] is the display name the handler looked up. The result is the
    new state and the text that goes back to the chat, if any (before it is
    converted and split for delivery). *)
Definition handleText (cfg : Config) (env : ProcEnv) (typingOk : bool)
    (text userName : jsstring) (userId chat : string) (now : Z) (during : list Op)
    (t0 : Z) (r : Relay) : Relay * option jsstring :=
  if isUserBusy (Some userId) (activeRequests r) then (r, Some WAIT_REPLY)
  else
    let busy := markUserBusy (Some userId) (activeRequests r) in
    if negb typingOk then ({| world := world r; activeRequests := busy |}, None)
    else
      let w1 := exec (trackMessage cfg text userName userId chat now) (world r) in
      let w1' := run cfg during w1 in
      let (result, w2) := callClaude env {| resume := true; internal := false |} t0 w1' in
      match result with
      | Normal response =>
          let w3 := exec (trackResponse response) w2 in
          ({| world := w3; activeRequests := markUserFree (Some userId) busy |},
           Some response)
      | Thrown _ =>
          ({| world := w2; activeRequests := markUserFree (Some userId) busy |},
           Some WRONG_REPLY)
      end.

(** ** The /new command and the shutdown handler *)

(** The [/new] command: close the session and report. The result is the
    text sent back. *)
Definition commandNew (cfg : Config) (now : Z) : M jsstring :=
  let* count := closeSession cfg "manual" now in
  ret (if count >? 0
       then lit "Session closed (" ++ lit (pretty count) ++ lit " messages). Starting fresh."
       else lit "No active session to close.").

(** The handler of SIGINT and SIGTERM as far as the state files go: the
    child registry is cleared and the lock released; the result is the
    lock file. *)
Definition shutdown (lockFile : option jsstring) : M (option jsstring) :=
  saveChildPids [] >>
  ret (releaseLock lockFile).

(** ** Starting from a session file *)

(** [loadSession]: the session the file holds, as [saveSession] wrote it, or
    a fresh one when there is no readable file. *)
Definition loadSession (file : option SessionState) (now : Z) : SessionState :=
  match file with
  | Some saved => saved
  | None => newSessionState now
  end.

(** A process that starts with the given session file. *)
Definition bootFrom (file : option SessionState) (now : Z) : World :=
  {| session := loadSession file now; sessionFile := file; background := [];
     childPids := []; signals := [] |}.

(** The worlds the relay gets into from a given one. *)
Inductive reachableFrom (cfg : Config) (start : World) : World -> Prop :=
| from_start : reachableFrom cfg start start
| from_step w op :
    reachableFrom cfg start w -> reachableFrom cfg start (exec (step cfg op) w).

(** A deployment whose maximum is set to 0. *)
Definition zeroMaxConfig : Config :=
  {| SESSION_MAX_MESSAGES := 0; SESSION_IDLE_TIMEOUT_MIN := 30; supabase := false |}.

(** A deployment whose maximum is set to 50. *)
Definition largerMaxConfig : Config :=
  {| SESSION_MAX_MESSAGES := 50; SESSION_IDLE_TIMEOUT_MIN := 30; supabase := false |}.

(** The session file a relay with a maximum of 50 leaves behind after 45
    messages. *)
Definition savedUnderLargerMax : option SessionState :=
  sessionFile (run largerMaxConfig (repeat (ping 0) 45) (bootWorld 0)).

(** ** Further notions about the session *)

(** The session file holds the live session: what [loadSession] would read
    back after a restart. *)
Definition synced (w : World) : Prop :=
  sessionFile w = Some (session w).

(** A transcript that is empty or ends with the separator. *)
Definition closedOff (t : jsstring) : Prop :=
  t = [] \/ exists x, t = x ++ NL2.

(** No operation of the sequence closes the session: there is no explicit
    close, and the closure check of every tracked message stays silent. *)
Fixpoint noClosure (cfg : Config) (ops : list Op) (w : World) : bool :=
  match ops with
  | [] => true
  | op :: rest =>
      match op with
      | TrackMessage _ _ _ _ now =>
          match shouldCloseSession cfg now (session w) with
          | None => true
          | Some _ => false
          end
      | CloseSession _ _ => false
      | _ => true
      end
      && noClosure cfg rest (exec (step cfg op) w)
  end.

Definition isTrackMessage (op : Op) : bool :=
  match op with
  | TrackMessage _ _ _ _ _ => true
  | _ => false
  end.

(** How many inbound messages a sequence of operations records. *)
Definition inboundCount (ops : list Op) : Z :=
  Z.of_nat (length (List.filter isTrackMessage ops)).

(** * Properties *)

(** ** JavaScript strings *)

Lemma substring_skipn (s : jsstring) (n : nat) :
  substring s (Z.of_nat n) = skipn n s.
Proof.
  unfold substring, js_length.
  destruct (Nat.le_gt_cases n (length s)) as [Hle | Hgt].
  - f_equal. lia.
  - replace (Z.to_nat _) with (length s) by lia.
    rewrite skipn_all. symmetry. apply skipn_all2. lia.
Qed.

Lemma isPrefix_app (p r : jsstring) : isPrefix p (p ++ r) = true.
Proof.
  induction p as [| c p IH]; simpl; [reflexivity |].
  rewrite Ascii.eqb_refl. exact IH.
Qed.

Lemma isPrefix_firstn (p s : jsstring) :
  isPrefix p s = true <-> firstn (length p) s = p.
Proof.
  revert s. induction p as [| c p IH]; intros s; simpl.
  - split; reflexivity.
  - destruct s as [| d s]; simpl.
    + split; discriminate.
    + rewrite andb_true_iff, Ascii.eqb_eq, IH. split.
      * intros [-> ->]. reflexivity.
      * intros H. injection H as -> H. split; [reflexivity | exact H].
Qed.

(** [findFirst] answers with an occurrence, and nothing occurs before it. *)
Lemma findFirst_Some (p s : jsstring) (i : nat) :
  findFirst p s = Some i ->
  occursAt p s i /\ forall j, (j < i)%nat -> ~ occursAt p s j.
Proof.
  revert i. induction s as [| c s IH]; intros i; simpl.
  - destruct (isPrefix p []) eqn:Hp; [| discriminate].
    intros [= <-]. split; [| intros j Hj; lia].
    apply isPrefix_firstn. exact Hp.
  - destruct (isPrefix p (c :: s)) eqn:Hp.
    + intros [= <-]. split; [| intros j Hj; lia].
      apply isPrefix_firstn. exact Hp.
    + destruct (findFirst p s) as [i' |] eqn:Hf; simpl; [| discriminate].
      intros [= <-]. destruct (IH i' eq_refl) as [Hocc Hmin]. split.
      * exact Hocc.
      * intros [| j] Hj.
        -- unfold occursAt. simpl skipn. rewrite <- isPrefix_firstn, Hp. discriminate.
        -- apply Hmin. lia.
Qed.

Lemma findFirst_None (p s : jsstring) :
  findFirst p s = None -> forall j, ~ occursAt p s j.
Proof.
  induction s as [| c s IH]; simpl.
  - destruct (isPrefix p []) eqn:Hp; [discriminate |].
    intros _ j. unfold occursAt. rewrite skipn_nil, <- isPrefix_firstn, Hp. discriminate.
  - destruct (isPrefix p (c :: s)) eqn:Hp; [discriminate |].
    destruct (findFirst p s) eqn:Hf; simpl; [discriminate |].
    intros _ [| j].
    + unfold occursAt. simpl skipn. rewrite <- isPrefix_firstn, Hp. discriminate.
    + apply IH. reflexivity.
Qed.

Lemma findFirst_occurs (p s : jsstring) (j : nat) :
  occursAt p s j -> exists i, findFirst p s = Some i /\ (i <= j)%nat.
Proof.
  intros Hocc. destruct (findFirst p s) as [i |] eqn:Hf.
  - exists i. split; [reflexivity |].
    destruct (Nat.le_gt_cases i j) as [Hle | Hgt]; [exact Hle |].
    destruct (findFirst_Some _ _ _ Hf) as [_ Hmin].
    exfalso. exact (Hmin j Hgt Hocc).
  - exfalso. exact (findFirst_None _ _ Hf j Hocc).
Qed.

Lemma occursAt_skipn (p s : jsstring) (k i : nat) :
  occursAt p (skipn k s) i <-> occursAt p s (k + i).
Proof. unfold occursAt. rewrite skipn_skipn, (Nat.add_comm i k). reflexivity. Qed.

Lemma occursAt_end (p x : jsstring) : occursAt p (x ++ p) (length x).
Proof.
  unfold occursAt. rewrite drop_app_length. apply firstn_all.
Qed.

Lemma occursAt_bound (p s : jsstring) (i : nat) :
  occursAt p s i -> (length p <= length s - i)%nat.
Proof.
  unfold occursAt. intros H. apply (f_equal (@length ascii)) in H.
  rewrite length_firstn, length_skipn in H. lia.
Qed.

(** ** The cap policy *)

Lemma cap_value : TRANSCRIPT_MAX_BYTES = 51200.
Proof. reflexivity. Qed.

(** The cap policy, with the clamping of [indexOf] and [substring] resolved:
    past the cap, the transcript is cut two characters after the first
    separator found from index [length - cap] on, and at that index itself
    if there is none. *)
Lemma truncateTranscript_cut (t : jsstring) :
  TRANSCRIPT_MAX_BYTES < js_length t ->
  let k := (length t - Z.to_nat TRANSCRIPT_MAX_BYTES)%nat in
  truncateTranscript t =
    match findFirst NL2 (skipn k t) with
    | Some i => skipn (k + i + 2) t
    | None => skipn k t
    end.
Proof.
  intros Hlen k. unfold truncateTranscript.
  pose proof cap_value as Hcap.
  assert (Hk : Z.of_nat k = js_length t - TRANSCRIPT_MAX_BYTES)
    by (unfold k, js_length in *; lia).
  replace (js_length t >? TRANSCRIPT_MAX_BYTES) with true by (symmetry; lia).
  unfold indexOf.
  replace (Z.to_nat (Z.min (Z.max (js_length t - TRANSCRIPT_MAX_BYTES) 0) (js_length t)))
    with k by (unfold k, js_length in *; lia).
  destruct (findFirst NL2 (skipn k t)) as [i |].
  - replace (Z.of_nat (k + i) >? -1) with true by (symmetry; apply Z.gtb_lt; lia).
    replace (Z.of_nat (k + i) + 2) with (Z.of_nat (k + i + 2)) by lia.
    apply substring_skipn.
  - replace (-1 >? -1) with false by reflexivity.
    rewrite <- Hk. apply substring_skipn.
Qed.

Lemma truncateTranscript_small (t : jsstring) :
  js_length t <= TRANSCRIPT_MAX_BYTES -> truncateTranscript t = t.
Proof.
  intros H. unfold truncateTranscript.
  replace (js_length t >? TRANSCRIPT_MAX_BYTES) with false by (symmetry; lia).
  reflexivity.
Qed.

(** Whatever goes in, what comes out fits the cap. *)
Lemma truncateTranscript_cap (t : jsstring) :
  js_length (truncateTranscript t) <= TRANSCRIPT_MAX_BYTES.
Proof.
  destruct (Z_le_gt_dec (js_length t) TRANSCRIPT_MAX_BYTES) as [Hle | Hgt].
  - rewrite truncateTranscript_small by exact Hle. exact Hle.
  - rewrite truncateTranscript_cut by lia.
    pose proof cap_value as Hcap.
    destruct (findFirst NL2 _); unfold js_length in *; rewrite length_skipn; lia.
Qed.

(** A transcript that ends with the separator and exceeds the cap is cut
    right behind the first separator of the retained window. *)
Lemma truncateTranscript_behind_separator (x : jsstring) :
  let t := x ++ NL2 in
  TRANSCRIPT_MAX_BYTES < js_length t ->
  exists c : nat,
    (length t - Z.to_nat TRANSCRIPT_MAX_BYTES <= c)%nat /\
    occursAt NL2 t c /\
    (forall j, (length t - Z.to_nat TRANSCRIPT_MAX_BYTES <= j < c)%nat -> ~ occursAt NL2 t j) /\
    truncateTranscript t = skipn (c + 2) t.
Proof.
  intros t Hlen. rewrite truncateTranscript_cut by exact Hlen.
  set (k := (length t - Z.to_nat TRANSCRIPT_MAX_BYTES)%nat).
  pose proof cap_value as Hcap.
  assert (Hlt : length t = (length x + 2)%nat) by (unfold t; rewrite length_app; reflexivity).
  assert (Hkx : (k <= length x)%nat) by (unfold k, js_length in *; lia).
  assert (Hend : occursAt NL2 (skipn k t) (length x - k)).
  { apply occursAt_skipn. replace (k + (length x - k))%nat with (length x) by lia.
    apply occursAt_end. }
  destruct (findFirst_occurs _ _ _ Hend) as (i & Hi & _).
  rewrite Hi. destruct (findFirst_Some _ _ _ Hi) as [Hocc Hmin].
  exists (k + i)%nat. split; [lia |]. split; [apply occursAt_skipn; exact Hocc |].
  split; [| reflexivity].
  intros j Hj Hoj. apply (Hmin (j - k)%nat); [lia |].
  apply occursAt_skipn. replace (k + (j - k))%nat with j by lia. exact Hoj.
Qed.

(** ** Running the operations *)

Lemma closeSession_run (cfg : Config) (reason : string) (now : Z) (w : World) :
  closeSession cfg reason now w =
    (messageCount (session w),
     {| session := newSessionState now;
        sessionFile := Some (newSessionState now);
        background :=
          background w ++
          (if supabase cfg && (js_length (transcript (session w)) >? 0)
           then [{| job_snapshot := session w;
                    job_count := messageCount (session w);
                    job_reason := reason |}]
           else []);
        childPids := childPids w;
        signals := signals w |}).
Proof.
  unfold closeSession, bind, getSession, setSession, saveSession, detach, ret. simpl.
  destruct (supabase cfg && (js_length (transcript (session w)) >? 0)); simpl.
  - reflexivity.
  - rewrite app_nil_r. reflexivity.
Qed.

Lemma trackMessage_session (cfg : Config) text userName userId chat now (w : World) :
  session (exec (trackMessage cfg text userName userId chat now) w) =
    recordMessage text userName userId chat now (afterClosure cfg now (session w)).
Proof.
  unfold trackMessage, exec, afterClosure, bind at 1 2. simpl.
  destruct (shouldCloseSession cfg now (session w)) as [r |].
  - unfold bind at 1. rewrite closeSession_run. reflexivity.
  - reflexivity.
Qed.

Lemma trackResponse_session (response : jsstring) (w : World) :
  session (exec (trackResponse response) w) = recordResponse response (session w).
Proof. reflexivity. Qed.

Lemma closeSession_session (cfg : Config) reason now (w : World) :
  session (exec (closeSession cfg reason now >> ret tt) w) = newSessionState now.
Proof. unfold exec, bind. rewrite closeSession_run. reflexivity. Qed.

Lemma assignSessionId_session (id : string) (now : Z) (w : World) :
  messageCount (session (exec (assignSessionId id now) w)) = messageCount (session w)
  /\ transcript (session (exec (assignSessionId id now) w)) = transcript (session w).
Proof. split; reflexivity. Qed.

Lemma run_app (cfg : Config) (ops1 ops2 : list Op) (w : World) :
  run cfg (ops1 ++ ops2) w = run cfg ops2 (run cfg ops1 w).
Proof.
  revert w. induction ops1 as [| op ops1 IH]; intros w; simpl; [reflexivity | apply IH].
Qed.

(** ** Closure policy *)

Lemma shouldCloseSession_limit (cfg : Config) (now : Z) (s : SessionState) :
  shouldCloseSession cfg now s = Some limit <-> SESSION_MAX_MESSAGES cfg <= messageCount s.
Proof.
  unfold shouldCloseSession.
  destruct (Z.geb_spec (messageCount s) (SESSION_MAX_MESSAGES cfg)) as [Hge | Hlt].
  - split; [intros _; lia | reflexivity].
  - destruct (_ && _); split; try discriminate; lia.
Qed.

Lemma shouldCloseSession_idle (cfg : Config) (now : Z) (s : SessionState) :
  shouldCloseSession cfg now s = Some idle <->
  messageCount s < SESSION_MAX_MESSAGES cfg /\
  0 < messageCount s /\
  SESSION_IDLE_TIMEOUT_MIN cfg * 60 * 1000 < now - lastActivity s.
Proof.
  unfold shouldCloseSession.
  destruct (Z.geb_spec (messageCount s) (SESSION_MAX_MESSAGES cfg)) as [Hge | Hlt].
  - split; [discriminate | lia].
  - destruct (Z.gtb_spec (messageCount s) 0) as [Hpos | Hnpos];
      destruct (Z.gtb_spec (now - lastActivity s) (SESSION_IDLE_TIMEOUT_MIN cfg * 60 * 1000))
        as [Hidle | Hnidle]; simpl; split; try discriminate; try lia; reflexivity.
Qed.

Lemma shouldCloseSession_none (cfg : Config) (now : Z) (s : SessionState) :
  shouldCloseSession cfg now s = None <->
  messageCount s < SESSION_MAX_MESSAGES cfg /\
  ~ (0 < messageCount s /\
     SESSION_IDLE_TIMEOUT_MIN cfg * 60 * 1000 < now - lastActivity s).
Proof.
  destruct (shouldCloseSession cfg now s) as [[|] |] eqn:H.
  - apply shouldCloseSession_idle in H. split; [discriminate | tauto].
  - apply shouldCloseSession_limit in H. split; [discriminate | lia].
  - split; [intros _ | reflexivity]. split.
    + destruct (Z_lt_ge_dec (messageCount s) (SESSION_MAX_MESSAGES cfg)) as [Hlt | Hge];
        [exact Hlt |].
      assert (Hl : shouldCloseSession cfg now s = Some limit)
        by (apply shouldCloseSession_limit; lia).
      congruence.
    + intros Hi.
      destruct (Z_lt_ge_dec (messageCount s) (SESSION_MAX_MESSAGES cfg)) as [Hlt | Hge].
      * assert (Hl : shouldCloseSession cfg now s = Some idle)
          by (apply shouldCloseSession_idle; tauto).
        congruence.
      * assert (Hl : shouldCloseSession cfg now s = Some limit)
          by (apply shouldCloseSession_limit; lia).
        congruence.
Qed.

Lemma run_snoc (cfg : Config) (ops : list Op) (op : Op) (w : World) :
  run cfg (ops ++ [op]) w = exec (step cfg op) (run cfg ops w).
Proof. rewrite run_app. reflexivity. Qed.

Lemma session_ping (cfg : Config) (now : Z) (w : World) :
  session (exec (step cfg (ping now)) w) =
    recordMessage (lit "ping") (lit "User") "8493500703" "8493500703" now
      (afterClosure cfg now (session w)).
Proof. unfold ping, step. apply trackMessage_session. Qed.

Lemma repeat_snoc {A} (x : A) (n : nat) : repeat x (S n) = repeat x n ++ [x].
Proof. simpl. apply repeat_cons. Qed.

(** Messages that all arrive at the boot instant are counted one by one up
    to the maximum. *)
Lemma messageCount_pings (cfg : Config) (now : Z) (n : nat) :
  0 <= SESSION_IDLE_TIMEOUT_MIN cfg ->
  Z.of_nat n <= SESSION_MAX_MESSAGES cfg ->
  messageCount (session (run cfg (repeat (ping now) n) (bootWorld now))) = Z.of_nat n
  /\ lastActivity (session (run cfg (repeat (ping now) n) (bootWorld now))) = now.
Proof.
  intros Hidle. induction n as [| n IH]; intros Hn; [split; reflexivity |].
  destruct (IH ltac:(lia)) as [IHc IHa].
  rewrite repeat_snoc, run_snoc, session_ping.
  set (s := session (run cfg (repeat (ping now) n) (bootWorld now))) in *.
  assert (Hnone : shouldCloseSession cfg now s = None).
  { apply shouldCloseSession_none. rewrite IHc, IHa. lia. }
  unfold afterClosure. rewrite Hnone. simpl. rewrite IHc. split; [lia | reflexivity].
Qed.

(** ** Session engine: the claims *)

(** C5. Whatever the session was, once [closeSession] has run the live
    session is the fresh one made by [newSessionState]: no messages, no
    session id, an empty transcript; that fresh session is what the session
    file holds; and the value returned is the message count of the session
    that was closed. *)
Theorem closeSession_fresh (cfg : Config) (reason : string) (now : Z) (w : World) :
  let w' := exec (closeSession cfg reason now) w in
  session w' = newSessionState now
  /\ messageCount (session w') = 0
  /\ sessionId (session w') = None
  /\ transcript (session w') = []
  /\ sessionFile w' = Some (session w')
  /\ eval (closeSession cfg reason now) w = messageCount (session w).
Proof.
  unfold exec, eval. rewrite closeSession_run. simpl. repeat split.
Qed.

(** C8. [trackResponse] appends ["Assistant: {text}\n\n"] to the transcript
    and applies the cap policy; message count, last activity, session id,
    chat id, user ids and start time stay as they were, and so does the
    verdict of [shouldCloseSession] at any later instant. Outside the
    session, only the session file changes: it receives the new session. *)
Theorem trackResponse_frame (cfg : Config) (response : jsstring) (w : World) :
  let s := session w in
  let w' := exec (trackResponse response) w in
  let s' := session w' in
  transcript s' = truncateTranscript (transcript s ++ lit "Assistant: " ++ response ++ NL2)
  /\ messageCount s' = messageCount s
  /\ lastActivity s' = lastActivity s
  /\ sessionId s' = sessionId s
  /\ chatId s' = chatId s
  /\ userIds s' = userIds s
  /\ startedAt s' = startedAt s
  /\ (forall now, shouldCloseSession cfg now s' = shouldCloseSession cfg now s)
  /\ sessionFile w' = Some s'
  /\ background w' = background w.
Proof.
  repeat split.
Qed.

(** C10. [closeSession] hands a job to the background exactly when the
    durable store is configured and the closed transcript is not empty, and
    the requests that job sends start with the insert of the archived row.
    In particular, closing a session whose transcript is empty adds no job,
    hence no insert and no summary request, whatever the store would
    answer. *)
Theorem closeSession_dispatch (cfg : Config) (reason : string) (now : Z) (w : World) :
  let w' := exec (closeSession cfg reason now) w in
  let job := {| job_snapshot := session w;
                job_count := messageCount (session w);
                job_reason := reason |} in
  background w' =
    background w ++
    (if supabase cfg && negb (bool_decide (transcript (session w) = [])) then [job] else [])
  /\ (forall closedAt replies,
        storeTraffic closedAt replies w' =
          storeTraffic closedAt replies w ++
          (if supabase cfg && negb (bool_decide (transcript (session w) = []))
           then runArchiveJob closedAt replies job else []))
  /\ (transcript (session w) = [] ->
        background w' = background w
        /\ forall closedAt replies,
             storeTraffic closedAt replies w' = storeTraffic closedAt replies w).
Proof.
  intros w' job.
  assert (Hbg : background w' =
                background w ++
                (if supabase cfg && negb (bool_decide (transcript (session w) = []))
                 then [job] else [])).
  { unfold w', exec. rewrite closeSession_run. simpl. f_equal.
    destruct (supabase cfg); [| reflexivity].
    destruct (transcript (session w)) as [| c t]; [reflexivity |].
    replace (js_length (c :: t) >? 0) with true
      by (symmetry; apply Z.gtb_lt; unfold js_length; simpl length; lia).
    reflexivity. }
  split; [exact Hbg |]. split.
  - intros closedAt replies. unfold storeTraffic. rewrite Hbg, flat_map_app. f_equal.
    destruct (supabase cfg && _); cbn [flat_map]; [apply app_nil_r | reflexivity].
  - intros Hempty. rewrite Hempty in Hbg. simpl in Hbg.
    rewrite andb_false_r, app_nil_r in Hbg.
    split; [exact Hbg |]. intros closedAt replies. unfold storeTraffic. rewrite Hbg.
    reflexivity.
Qed.

(** A chat that was opened and closed again without a single message. *)
Lemma closeSession_dispatch_witness :
  let cfg := {| SESSION_MAX_MESSAGES := 30; SESSION_IDLE_TIMEOUT_MIN := 30; supabase := true |} in
  let w' := exec (closeSession cfg "manual" 1000) (bootWorld 0) in
  transcript (session (bootWorld 0)) = []
  /\ background w' = []
  /\ storeTraffic 2000 {| insertReply := Some 7; summaryReply := lit "nothing" |} w' = [].
Proof.
  intros cfg w'.
  destruct (closeSession_dispatch cfg "manual" 1000 (bootWorld 0)) as (_ & _ & H).
  destruct (H eq_refl) as [Hbg Htr].
  split; [reflexivity |]. split; [exact Hbg |].
  exact (Htr 2000 {| insertReply := Some 7; summaryReply := lit "nothing" |}).
Defined.

Lemma reachable_run (cfg : Config) (ops : list Op) (w : World) :
  reachable cfg w -> reachable cfg (run cfg ops w).
Proof.
  revert w. induction ops as [| op ops IH]; intros w Hw; simpl; [exact Hw |].
  apply IH. apply reach_step. exact Hw.
Qed.

Lemma afterClosure_count (cfg : Config) (now : Z) (s : SessionState) :
  messageCount (afterClosure cfg now s) < SESSION_MAX_MESSAGES cfg
  \/ messageCount (afterClosure cfg now s) = 0.
Proof.
  unfold afterClosure. destruct (shouldCloseSession cfg now s) eqn:H.
  - right. reflexivity.
  - left. apply shouldCloseSession_none in H. tauto.
Qed.

(** C2, as stated, fails. With the maximum at 30, a relay that has recorded
    29 messages does not close when the 30th arrives: the closure check
    answers "no", and the 30th message becomes message number 30 of the same
    session instead of message number 1 of a fresh one. *)
Lemma thirtieth_message_stays :
  let w29 := run defaultConfig (repeat (ping 0) 29) (bootWorld 0) in
  let w30 := exec (step defaultConfig (ping 0)) w29 in
  messageCount (session w29) = 29
  /\ shouldCloseSession defaultConfig 0 (session w29) = None
  /\ messageCount (session w30) = 30
  /\ messageCount (session w30) <> 1.
Proof.
  vm_compute. repeat split; discriminate.
Qed.

(** C2, amended. [shouldCloseSession] answers [limit] exactly when
    [messageCount >= SESSION_MAX_MESSAGES]. A message arriving at a session
    that has reached the maximum closes it first and is recorded as the
    first message of the fresh session; a message arriving below the
    maximum, with the idle policy silent, is recorded into the live session.
    So with the maximum at 30 the first 30 messages share one session, and
    it is the 31st that triggers the close and lands in the fresh session. *)
Theorem limit_closes_on_next_message (cfg : Config) :
  (forall now s,
     shouldCloseSession cfg now s = Some limit <-> messageCount s >= SESSION_MAX_MESSAGES cfg)
  /\ (forall w text userName userId chat now,
        messageCount (session w) >= SESSION_MAX_MESSAGES cfg ->
        let w' := exec (trackMessage cfg text userName userId chat now) w in
        session w' = recordMessage text userName userId chat now (newSessionState now)
        /\ messageCount (session w') = 1)
  /\ (forall w text userName userId chat now,
        shouldCloseSession cfg now (session w) = None ->
        let w' := exec (trackMessage cfg text userName userId chat now) w in
        session w' = recordMessage text userName userId chat now (session w)
        /\ messageCount (session w') = messageCount (session w) + 1)
  /\ (SESSION_MAX_MESSAGES cfg = 30 ->
      0 <= SESSION_IDLE_TIMEOUT_MIN cfg ->
      forall now,
        (forall n, (n <= 30)%nat ->
           messageCount (session (run cfg (repeat (ping now) n) (bootWorld now))) = Z.of_nat n)
        /\ shouldCloseSession cfg now
             (session (run cfg (repeat (ping now) 29) (bootWorld now))) = None
        /\ shouldCloseSession cfg now
             (session (run cfg (repeat (ping now) 30) (bootWorld now))) = Some limit
        /\ messageCount (session (run cfg (repeat (ping now) 31) (bootWorld now))) = 1).
Proof.
  split; [| split; [| split]].
  - intros now s. rewrite shouldCloseSession_limit. lia.
  - intros w text userName userId chat now Hmax w'. unfold w'.
    rewrite trackMessage_session. unfold afterClosure.
    assert (H : shouldCloseSession cfg now (session w) = Some limit)
      by (apply shouldCloseSession_limit; lia).
    rewrite H. split; reflexivity.
  - intros w text userName userId chat now Hnone w'. unfold w'.
    rewrite trackMessage_session. unfold afterClosure. rewrite Hnone.
    split; reflexivity.
  - intros Hmax Hidle now.
    assert (Hcount : forall n, (n <= 30)%nat ->
              messageCount (session (run cfg (repeat (ping now) n) (bootWorld now))) = Z.of_nat n
              /\ lastActivity (session (run cfg (repeat (ping now) n) (bootWorld now))) = now).
    { intros n Hn. apply messageCount_pings; lia. }
    split; [intros n Hn; apply Hcount; exact Hn |].
    destruct (Hcount 29%nat ltac:(lia)) as [Hc29 Ha29].
    destruct (Hcount 30%nat ltac:(lia)) as [Hc30 Ha30].
    split; [| split].
    + apply shouldCloseSession_none. rewrite Hc29, Ha29. lia.
    + apply shouldCloseSession_limit. rewrite Hc30. lia.
    + rewrite (repeat_snoc (ping now) 30), run_snoc, session_ping. unfold afterClosure.
      assert (H : shouldCloseSession cfg now
                    (session (run cfg (repeat (ping now) 30) (bootWorld now))) = Some limit)
        by (apply shouldCloseSession_limit; rewrite Hc30; lia).
      rewrite H. reflexivity.
Qed.

(** The default deployment: 30 messages in one session, the 31st in the
    next. *)
Lemma limit_closes_on_next_message_witness :
  SESSION_MAX_MESSAGES defaultConfig = 30
  /\ 0 <= SESSION_IDLE_TIMEOUT_MIN defaultConfig
  /\ messageCount (session (run defaultConfig (repeat (ping 5) 30) (bootWorld 5))) = 30
  /\ messageCount (session (run defaultConfig (repeat (ping 5) 31) (bootWorld 5))) = 1.
Proof.
  destruct (limit_closes_on_next_message defaultConfig) as (_ & _ & _ & H).
  destruct (H eq_refl ltac:(simpl; lia) 5) as (Hn & _ & _ & H31).
  split; [reflexivity |]. split; [simpl; lia |].
  split; [exact (Hn 30%nat (le_n 30)) | exact H31].
Defined.

(** C3, as stated, fails. With the maximum set to 0, the first message of a
    freshly booted relay is recorded into a session whose count is then 1,
    above the maximum, although the count was within the maximum before.
    And a relay with the default maximum of 30 that starts from the session
    file a relay with a maximum of 50 left behind after 45 messages has an
    open session of 45 messages. *)
Lemma maximum_can_be_exceeded :
  let w := exec (step zeroMaxConfig (ping 0)) (bootWorld 0) in
  reachable zeroMaxConfig w
  /\ messageCount (session (bootWorld 0)) <= SESSION_MAX_MESSAGES zeroMaxConfig
  /\ messageCount (session w) = 1
  /\ ~ messageCount (session w) <= SESSION_MAX_MESSAGES zeroMaxConfig
  /\ messageCount (session (bootFrom savedUnderLargerMax 0)) = 45
  /\ ~ messageCount (session (bootFrom savedUnderLargerMax 0))
        <= SESSION_MAX_MESSAGES defaultConfig.
Proof.
  intros w. split; [apply reach_step; apply reach_boot |].
  vm_compute. repeat split; try discriminate; intros H; apply H; reflexivity.
Qed.

(** C3, amended. Provided the configured maximum is at least 1: every
    operation on the session ([trackMessage], [trackResponse],
    [closeSession], the session-id assignment) keeps
    [messageCount <= SESSION_MAX_MESSAGES], so the bound holds in every
    world reached from a fresh start, and in every world reached from a
    start with a session file whose count is within the bound.
    [trackMessage] and [closeSession] bring the count within the bound
    whatever it was before, so a session loaded above the bound exceeds it
    only until the next inbound message or close; and [trackMessage] closes
    and replaces a session that has reached the maximum before it
    increments, which leaves the count at 1. *)
Theorem messageCount_never_exceeds_max (cfg : Config) :
  1 <= SESSION_MAX_MESSAGES cfg ->
  (forall w op,
     messageCount (session w) <= SESSION_MAX_MESSAGES cfg ->
     messageCount (session (exec (step cfg op) w)) <= SESSION_MAX_MESSAGES cfg)
  /\ (forall w, reachable cfg w -> messageCount (session w) <= SESSION_MAX_MESSAGES cfg)
  /\ (forall file now w,
        messageCount (loadSession file now) <= SESSION_MAX_MESSAGES cfg ->
        reachableFrom cfg (bootFrom file now) w ->
        messageCount (session w) <= SESSION_MAX_MESSAGES cfg)
  /\ (forall w text userName userId chat now,
        messageCount (session (exec (trackMessage cfg text userName userId chat now) w))
        <= SESSION_MAX_MESSAGES cfg)
  /\ (forall w reason now,
        messageCount (session (exec (closeSession cfg reason now) w))
        <= SESSION_MAX_MESSAGES cfg)
  /\ (forall w text userName userId chat now,
        messageCount (session w) >= SESSION_MAX_MESSAGES cfg ->
        messageCount (session (exec (trackMessage cfg text userName userId chat now) w)) = 1).
Proof.
  intros Hmax.
  assert (Htrack : forall w text userName userId chat now,
            messageCount (session (exec (trackMessage cfg text userName userId chat now) w))
            <= SESSION_MAX_MESSAGES cfg).
  { intros w text userName userId chat now. rewrite trackMessage_session. simpl.
    destruct (afterClosure_count cfg now (session w)) as [H | H]; lia. }
  assert (Hclose : forall w reason now,
            messageCount (session (exec (closeSession cfg reason now) w))
            <= SESSION_MAX_MESSAGES cfg).
  { intros w reason now. unfold exec. rewrite closeSession_run. simpl. lia. }
  assert (Hstep : forall w op,
            messageCount (session w) <= SESSION_MAX_MESSAGES cfg ->
            messageCount (session (exec (step cfg op) w)) <= SESSION_MAX_MESSAGES cfg).
  { intros w [text userName userId chat now | response | reason now | id now] Hw;
      unfold step.
    - apply Htrack.
    - rewrite trackResponse_session. exact Hw.
    - rewrite closeSession_session. simpl. lia.
    - destruct (assignSessionId_session id now w) as [-> _]. exact Hw. }
  split; [exact Hstep |]. split; [| split; [| split; [exact Htrack | split; [exact Hclose |]]]].
  - intros w Hreach. induction Hreach as [now | w op Hreach IH].
    + simpl. lia.
    + apply Hstep. exact IH.
  - intros file now w Hfile Hreach. induction Hreach as [| w op Hreach IH].
    + exact Hfile.
    + apply Hstep. exact IH.
  - intros w text userName userId chat now Hw.
    rewrite trackMessage_session. unfold afterClosure.
    assert (H : shouldCloseSession cfg now (session w) = Some limit)
      by (apply shouldCloseSession_limit; lia).
    rewrite H. reflexivity.
Qed.

(** The default deployment: after 31 messages from a fresh start, and after
    the first message on top of the session file of 45 messages. *)
Lemma messageCount_never_exceeds_max_witness :
  1 <= SESSION_MAX_MESSAGES defaultConfig
  /\ messageCount (session (run defaultConfig (repeat (ping 0) 31) (bootWorld 0)))
     <= SESSION_MAX_MESSAGES defaultConfig
  /\ messageCount (session (exec (step defaultConfig (ping 0))
                                 (bootFrom savedUnderLargerMax 0)))
     <= SESSION_MAX_MESSAGES defaultConfig.
Proof.
  assert (H1 : 1 <= SESSION_MAX_MESSAGES defaultConfig) by (simpl; lia).
  destruct (messageCount_never_exceeds_max defaultConfig H1) as (_ & Hreach & _ & Htrack & _).
  split; [exact H1 |]. split.
  - apply Hreach. apply reachable_run. apply reach_boot.
  - apply Htrack.
Defined.

(** C6, as stated, fails. A session that has reached the maximum and then
    sat idle for 31 minutes has a positive message count and an idle time
    beyond the timeout, and yet the verdict is [limit], not [idle]. *)
Lemma limit_shadows_idle :
  let s := session (run defaultConfig (repeat (ping 0) 30) (bootWorld 0)) in
  let now := 31 * 60 * 1000 in
  0 < messageCount s
  /\ SESSION_IDLE_TIMEOUT_MIN defaultConfig * 60 * 1000 < now - lastActivity s
  /\ shouldCloseSession defaultConfig now s = Some limit
  /\ shouldCloseSession defaultConfig now s <> Some idle.
Proof.
  vm_compute. repeat split; discriminate.
Qed.

(** C6, amended. [shouldCloseSession] answers [idle] exactly when the
    message count is positive and below the maximum and the time since the
    last activity strictly exceeds the idle timeout; it answers nothing
    exactly when neither the limit nor the idle condition holds. With a
    30-minute timeout, a message arriving 31 minutes after the last
    activity of a session that holds messages is recorded into a fresh
    session, and one arriving after 29 minutes into the live session,
    unless that session has reached the maximum. *)
Theorem idle_closes_after_timeout (cfg : Config) :
  (forall now s,
     shouldCloseSession cfg now s = Some idle <->
     messageCount s < SESSION_MAX_MESSAGES cfg
     /\ messageCount s > 0
     /\ now - lastActivity s > SESSION_IDLE_TIMEOUT_MIN cfg * 60 * 1000)
  /\ (forall now s,
        shouldCloseSession cfg now s = None <->
        ~ messageCount s >= SESSION_MAX_MESSAGES cfg
        /\ ~ (messageCount s > 0
              /\ now - lastActivity s > SESSION_IDLE_TIMEOUT_MIN cfg * 60 * 1000))
  /\ (SESSION_IDLE_TIMEOUT_MIN cfg = 30 ->
      forall w text userName userId chat,
        messageCount (session w) > 0 ->
        let at31 := lastActivity (session w) + 31 * 60 * 1000 in
        let at29 := lastActivity (session w) + 29 * 60 * 1000 in
        session (exec (trackMessage cfg text userName userId chat at31) w)
          = recordMessage text userName userId chat at31 (newSessionState at31)
        /\ (messageCount (session w) < SESSION_MAX_MESSAGES cfg ->
            shouldCloseSession cfg at31 (session w) = Some idle
            /\ shouldCloseSession cfg at29 (session w) = None
            /\ session (exec (trackMessage cfg text userName userId chat at29) w)
                 = recordMessage text userName userId chat at29 (session w))).
Proof.
  split; [| split].
  - intros now s. rewrite shouldCloseSession_idle. lia.
  - intros now s. rewrite shouldCloseSession_none. lia.
  - intros Htimeout w text userName userId chat Hpos at31 at29. split.
    + rewrite trackMessage_session. unfold afterClosure.
      destruct (shouldCloseSession cfg at31 (session w)) eqn:H; [reflexivity |].
      apply shouldCloseSession_none in H. unfold at31 in H. lia.
    + intros Hlt.
      assert (H31 : shouldCloseSession cfg at31 (session w) = Some idle)
        by (apply shouldCloseSession_idle; unfold at31; lia).
      assert (H29 : shouldCloseSession cfg at29 (session w) = None)
        by (apply shouldCloseSession_none; unfold at29; lia).
      split; [exact H31 |]. split; [exact H29 |].
      rewrite trackMessage_session. unfold afterClosure. rewrite H29. reflexivity.
Qed.

(** One message at time 0, the next one 31 or 29 minutes later. *)
Lemma idle_closes_after_timeout_witness :
  let w := run defaultConfig [ping 0] (bootWorld 0) in
  SESSION_IDLE_TIMEOUT_MIN defaultConfig = 30
  /\ messageCount (session w) > 0
  /\ messageCount (session w) < SESSION_MAX_MESSAGES defaultConfig
  /\ messageCount (session (exec (step defaultConfig (ping (31 * 60 * 1000))) w)) = 1
  /\ messageCount (session (exec (step defaultConfig (ping (29 * 60 * 1000))) w)) = 2.
Proof.
  intros w.
  assert (Hpos : messageCount (session w) > 0) by (vm_compute; reflexivity).
  assert (Hlt : messageCount (session w) < SESSION_MAX_MESSAGES defaultConfig)
    by (vm_compute; reflexivity).
  destruct (idle_closes_after_timeout defaultConfig) as (_ & _ & H).
  destruct (H eq_refl w (lit "ping") (lit "User") "8493500703"%string "8493500703"%string Hpos)
    as [H31 H29].
  destruct (H29 Hlt) as (_ & _ & H29').
  split; [reflexivity |]. split; [exact Hpos |]. split; [exact Hlt |]. split.
  - unfold ping, step.
    change (31 * 60 * 1000) with (lastActivity (session w) + 31 * 60 * 1000).
    rewrite H31. reflexivity.
  - unfold ping, step.
    change (29 * 60 * 1000) with (lastActivity (session w) + 29 * 60 * 1000).
    rewrite H29'. reflexivity.
Defined.

(** ** Concurrency gate *)

Lemma isUserBusy_markUserBusy (userId : option string) (active : gmap string bool) :
  truthy userId = true -> isUserBusy userId (markUserBusy userId active) = true.
Proof.
  destruct userId as [u |]; [| discriminate].
  intros Ht. unfold isUserBusy, markUserBusy. rewrite Ht, lookup_insert_eq. reflexivity.
Qed.

Lemma isUserBusy_markUserFree (userId : option string) (active : gmap string bool) :
  isUserBusy userId (markUserFree userId active) = false.
Proof.
  destruct userId as [u |]; [| reflexivity].
  unfold isUserBusy, markUserFree. destruct (truthy (Some u)); [| reflexivity].
  rewrite lookup_delete_eq. reflexivity.
Qed.

Lemma isUserBusy_other_markUserBusy (userId other : option string) (active : gmap string bool) :
  other <> userId -> isUserBusy other (markUserBusy userId active) = isUserBusy other active.
Proof.
  intros Hne. destruct userId as [u |]; [| reflexivity].
  destruct other as [v |]; [| reflexivity].
  unfold isUserBusy, markUserBusy. destruct (truthy (Some u)); [| reflexivity].
  rewrite lookup_insert_ne by congruence. reflexivity.
Qed.

Lemma isUserBusy_other_markUserFree (userId other : option string) (active : gmap string bool) :
  other <> userId -> isUserBusy other (markUserFree userId active) = isUserBusy other active.
Proof.
  intros Hne. destruct userId as [u |]; [| reflexivity].
  destruct other as [v |]; [| reflexivity].
  unfold isUserBusy, markUserFree. destruct (truthy (Some u)); [| reflexivity].
  rewrite lookup_delete_ne by congruence. reflexivity.
Qed.

Lemma tryAcquire_admits (userId : option string) (active : gmap string bool) :
  fst (tryAcquire userId active) = negb (isUserBusy userId active).
Proof. unfold tryAcquire. destruct (isUserBusy userId active); reflexivity. Qed.

(** C7. For a user id (a defined, non-empty string) and any state of the
    gate: after one acquire, a second acquire with no release in between is
    turned down on the spot and leaves the gate as it was; after a release
    the next acquire succeeds; and neither an acquire nor a release of this
    user changes whether any other user is busy, hence what an acquire of
    that other user answers. *)
Theorem gate_one_request_per_user (userId : option string) (active : gmap string bool) :
  truthy userId = true ->
  let held := snd (tryAcquire userId active) in
  tryAcquire userId held = (false, held)
  /\ fst (tryAcquire userId (release userId held)) = true
  /\ (forall anyState, fst (tryAcquire userId (release userId anyState)) = true)
  /\ (forall other,
        other <> userId ->
        isUserBusy other held = isUserBusy other active
        /\ isUserBusy other (release userId active) = isUserBusy other active
        /\ fst (tryAcquire other held) = fst (tryAcquire other active)
        /\ fst (tryAcquire other (release userId active)) = fst (tryAcquire other active)).
Proof.
  intros Ht held.
  assert (Hbusy : isUserBusy userId held = true).
  { unfold held, tryAcquire. destruct (isUserBusy userId active) eqn:Hb; simpl.
    - exact Hb.
    - apply isUserBusy_markUserBusy. exact Ht. }
  assert (Hfree : forall a, fst (tryAcquire userId (release userId a)) = true).
  { intros a. unfold tryAcquire, release. rewrite isUserBusy_markUserFree. reflexivity. }
  split; [unfold tryAcquire; rewrite Hbusy; reflexivity |].
  split; [apply Hfree |]. split; [exact Hfree |].
  intros other Hne.
  assert (Hheld : isUserBusy other held = isUserBusy other active).
  { unfold held, tryAcquire. destruct (isUserBusy userId active); simpl.
    - reflexivity.
    - apply isUserBusy_other_markUserBusy. exact Hne. }
  assert (Hrel : isUserBusy other (release userId active) = isUserBusy other active)
    by (apply isUserBusy_other_markUserFree; exact Hne).
  split; [exact Hheld |]. split; [exact Hrel |].
  rewrite !tryAcquire_admits, Hheld, Hrel. split; reflexivity.
Qed.

(** Two messages of the owner in a row, then the reply is sent. *)
Lemma gate_one_request_per_user_witness :
  let owner := Some "8493500703"%string in
  let held := snd (tryAcquire owner ∅) in
  truthy owner = true
  /\ fst (tryAcquire owner ∅) = true
  /\ tryAcquire owner held = (false, held)
  /\ fst (tryAcquire owner (release owner held)) = true.
Proof.
  intros owner held.
  destruct (gate_one_request_per_user owner ∅ eq_refl) as (H2 & H3 & _).
  split; [reflexivity |]. split; [reflexivity |]. split; [exact H2 | exact H3].
Defined.

(** ** Where the cut falls *)

Lemma isPrefix_NL2 (c d : ascii) (r : jsstring) :
  isPrefix NL2 (c :: d :: r) = Ascii.eqb newline c && Ascii.eqb newline d.
Proof. simpl. rewrite andb_true_r. reflexivity. Qed.

Lemma findFirst_here (p s : jsstring) :
  isPrefix p s = true -> findFirst p s = Some 0%nat.
Proof. intros H. destruct s; simpl; rewrite H; reflexivity. Qed.

Lemma findFirst_cons (p : jsstring) (c : ascii) (s : jsstring) :
  findFirst p (c :: s) =
    if isPrefix p (c :: s) then Some 0%nat else option_map S (findFirst p s).
Proof. reflexivity. Qed.

Lemma findFirst_cons_None (p : jsstring) (c : ascii) (s : jsstring) :
  findFirst p (c :: s) = None <-> isPrefix p (c :: s) = false /\ findFirst p s = None.
Proof.
  simpl. destruct (isPrefix p (c :: s)); destruct (findFirst p s); simpl;
    split; try discriminate; try tauto; intros [? ?]; discriminate.
Qed.

Lemma quiet_tail (c : ascii) (x : jsstring) : quiet (c :: x) -> quiet x.
Proof. unfold quiet. simpl app. rewrite findFirst_cons_None. tauto. Qed.

Lemma quiet_skipn (x : jsstring) (j : nat) : quiet x -> quiet (skipn j x).
Proof.
  revert j. induction x as [| c x IH]; intros j Hq.
  - rewrite skipn_nil. exact Hq.
  - destruct j as [| j]; [exact Hq |]. simpl. apply IH. exact (quiet_tail _ _ Hq).
Qed.

(** Behind a quiet stretch, the first separator is the one that follows. *)
Lemma quiet_find (x rest : jsstring) :
  quiet x -> findFirst NL2 (x ++ NL2 ++ rest) = Some (length x).
Proof.
  induction x as [| c x IH]; intros Hq.
  - apply findFirst_here. exact (isPrefix_app NL2 rest).
  - pose proof (quiet_tail _ _ Hq) as Hq'.
    unfold quiet in Hq. simpl app in Hq. apply findFirst_cons_None in Hq.
    destruct Hq as [Hpre _].
    assert (Hpre' : isPrefix NL2 (c :: x ++ NL2 ++ rest) = false).
    { destruct x as [| d x]; simpl app in *; rewrite isPrefix_NL2 in *; exact Hpre. }
    change ((c :: x) ++ NL2 ++ rest) with (c :: (x ++ NL2 ++ rest)).
    rewrite findFirst_cons, Hpre', (IH Hq'). reflexivity.
Qed.

Lemma noSeparator_quiet (b : jsstring) :
  b <> [] ->
  Ascii.eqb (List.last b " "%char) newline = false ->
  findFirst NL2 b = None ->
  quiet b.
Proof.
  unfold quiet. induction b as [| c b IH]; intros Hne Hlast Hnone; [congruence |].
  destruct b as [| d b].
  - simpl in Hlast. simpl app. apply findFirst_cons_None. split.
    + rewrite isPrefix_NL2, (Ascii.eqb_sym newline c), Hlast. reflexivity.
    + reflexivity.
  - apply findFirst_cons_None in Hnone. destruct Hnone as [Hpre Hnone].
    simpl app. apply findFirst_cons_None. split.
    + rewrite isPrefix_NL2 in *. exact Hpre.
    + apply IH; [discriminate | exact Hlast | exact Hnone].
Qed.

Lemma tidy_quiet (b : jsstring) :
  tidy b = true -> quiet b /\ quiet (newline :: b).
Proof.
  unfold tidy. destruct b as [| c b]; [discriminate |].
  rewrite !andb_true_iff, !negb_true_iff. intros [[Hhead Hlast] Hnone].
  assert (Hq : quiet (c :: b)).
  { apply noSeparator_quiet; [discriminate | exact Hlast |].
    destruct (findFirst NL2 (c :: b)); [discriminate | reflexivity]. }
  split; [exact Hq |].
  unfold quiet. simpl app. apply findFirst_cons_None. split; [| exact Hq].
  rewrite isPrefix_NL2, (Ascii.eqb_sym newline c), Hhead. apply andb_false_r.
Qed.

(** In a transcript made of tidy entries, a cut that starts anywhere up to
    two characters before the end drops whole entries. *)
Lemma cut_aligned (es : list jsstring) :
  Forall tidyEntry es ->
  forall k, (k + 2 <= length (concat es))%nat ->
  exists i j,
    findFirst NL2 (skipn k (concat es)) = Some i
    /\ skipn (k + i + 2) (concat es) = concat (skipn j es).
Proof.
  induction 1 as [| e es He Hes IH]; intros k Hk; [simpl in Hk; lia |].
  destruct He as (b & -> & Hb). destruct (tidy_quiet b Hb) as [Hq _].
  change (concat ((b ++ NL2) :: es)) with ((b ++ NL2) ++ concat es) in *.
  assert (Hlen : length (b ++ NL2) = (length b + 2)%nat)
    by (rewrite length_app; reflexivity).
  destruct (le_gt_dec k (length b)) as [Hle | Hgt].
  - exists (length b - k)%nat, 1%nat. split.
    + rewrite <- app_assoc, drop_app_le by exact Hle.
      rewrite (quiet_find _ _ (quiet_skipn b k Hq)), length_skipn. reflexivity.
    + replace (k + (length b - k) + 2)%nat with (length (b ++ NL2)) by lia.
      rewrite drop_app_length. reflexivity.
  - destruct (Nat.eq_dec k (S (length b))) as [Heq | Hneq].
    + destruct Hes as [| e2 es2 He2 Hes2].
      { simpl in Hk. rewrite app_nil_r in Hk. lia. }
      destruct He2 as (b2 & -> & Hb2). destruct (tidy_quiet b2 Hb2) as [_ Hq2].
      change (concat ((b2 ++ NL2) :: es2)) with ((b2 ++ NL2) ++ concat es2) in *.
      exists (S (length b2)), 2%nat. split.
      * replace ((b ++ NL2) ++ (b2 ++ NL2) ++ concat es2)
          with ((b ++ [newline]) ++ (newline :: b2) ++ NL2 ++ concat es2)
          by (rewrite <- !app_assoc; reflexivity).
        rewrite drop_app_length' by (rewrite length_app; simpl; lia).
        rewrite (quiet_find _ _ Hq2). reflexivity.
      * rewrite app_assoc.
        rewrite drop_app_length' by (rewrite !length_app; simpl; lia).
        reflexivity.
    + destruct (IH (k - length (b ++ NL2))%nat) as (i & j & Hi & Hj).
      { rewrite length_app in Hk. lia. }
      exists i, (S j). split.
      * rewrite drop_app_ge by lia. exact Hi.
      * rewrite drop_app_ge by lia.
        replace (k + i + 2 - length (b ++ NL2))%nat
          with (k - length (b ++ NL2) + i + 2)%nat by lia.
        exact Hj.
Qed.

Lemma entryAligned_normal (es : list jsstring) (t : jsstring) :
  entryAligned es t -> exists k, (k <= length es)%nat /\ t = concat (skipn k es).
Proof.
  intros [k Hk]. destruct (le_gt_dec k (length es)) as [Hle | Hgt].
  - exists k. split; [exact Hle | exact Hk].
  - exists (length es). split; [lia |].
    rewrite Hk, skipn_all, skipn_all2 by lia. reflexivity.
Qed.

(** The cap policy keeps a transcript of tidy entries made of whole
    entries. *)
Lemma truncateTranscript_aligned (es : list jsstring) :
  Forall tidyEntry es -> entryAligned es (truncateTranscript (concat es)).
Proof.
  intros Hes.
  destruct (Z_le_gt_dec (js_length (concat es)) TRANSCRIPT_MAX_BYTES) as [Hle | Hgt].
  - rewrite truncateTranscript_small by exact Hle. exists 0%nat. reflexivity.
  - rewrite truncateTranscript_cut by lia.
    pose proof cap_value as Hcap.
    destruct (cut_aligned es Hes (length (concat es) - Z.to_nat TRANSCRIPT_MAX_BYTES)%nat)
      as (i & j & Hi & Hj).
    { unfold js_length in Hgt. lia. }
    rewrite Hi, Hj. exists j. reflexivity.
Qed.

(** Appending a tidy entry and applying the cap keeps the transcript made
    of whole entries of the longer history. *)
Lemma append_aligned (hist : list jsstring) (t b : jsstring) :
  Forall tidyEntry hist ->
  tidy b = true ->
  entryAligned hist t ->
  entryAligned (hist ++ [b ++ NL2]) (truncateTranscript (t ++ b ++ NL2)).
Proof.
  intros Hhist Hb Ht.
  destruct (entryAligned_normal _ _ Ht) as (k & Hk & ->).
  assert (Heq : concat (skipn k hist) ++ b ++ NL2 = concat (skipn k (hist ++ [b ++ NL2]))).
  { rewrite drop_app_le by exact Hk. rewrite concat_app. simpl. rewrite app_nil_r.
    reflexivity. }
  rewrite Heq.
  assert (Htidy : Forall tidyEntry (skipn k (hist ++ [b ++ NL2]))).
  { apply Forall_drop. apply Forall_app. split; [exact Hhist |].
    constructor; [| constructor]. exists b. split; [reflexivity | exact Hb]. }
  destruct (truncateTranscript_aligned _ Htidy) as [j Hj].
  exists (k + j)%nat. rewrite Hj, skipn_skipn. f_equal. f_equal. lia.
Qed.

Lemma messageEntry_body (userName text : jsstring) :
  messageEntry userName text = (userName ++ lit ": " ++ text) ++ NL2.
Proof. unfold messageEntry. rewrite <- !app_assoc. reflexivity. Qed.

Lemma responseEntry_body (response : jsstring) :
  responseEntry response = (lit "Assistant: " ++ response) ++ NL2.
Proof. unfold responseEntry. rewrite <- !app_assoc. reflexivity. Qed.

Lemma entryAligned_nil (hist : list jsstring) : entryAligned hist [].
Proof. exists (length hist). rewrite skipn_all. reflexivity. Qed.

Lemma entryAlignedb_spec (es : list jsstring) (t : jsstring) :
  entryAligned es t <-> entryAlignedb es t = true.
Proof.
  induction es as [| e es IH]; simpl.
  - rewrite orb_false_r, bool_decide_eq_true. split.
    + intros [k ->]. rewrite skipn_nil. reflexivity.
    + intros ->. exists 0%nat. reflexivity.
  - rewrite orb_true_iff, bool_decide_eq_true, <- IH. split.
    + intros [[| k] Hk]; [left; exact Hk | right; exists k; exact Hk].
    + intros [Hk | [k Hk]]; [exists 0%nat; exact Hk | exists (S k); exact Hk].
Qed.

Lemma step_aligned (cfg : Config) (hist : list jsstring) (w : World) (op : Op) :
  Forall tidyEntry hist ->
  tidyOp op = true ->
  entryAligned hist (transcript (session w)) ->
  entryAligned (hist ++ entriesOf [op]) (transcript (session (exec (step cfg op) w))).
Proof.
  intros Hhist Hop Hw.
  destruct op as [text userName userId chat now | response | reason now | id now];
    unfold tidyOp in Hop; simpl in Hop; simpl entriesOf; unfold step.
  - rewrite trackMessage_session. simpl transcript. rewrite messageEntry_body.
    apply append_aligned; [exact Hhist | exact Hop |].
    unfold afterClosure. destruct (shouldCloseSession cfg now (session w));
      [apply entryAligned_nil | exact Hw].
  - rewrite trackResponse_session. simpl transcript. rewrite responseEntry_body.
    apply append_aligned; [exact Hhist | exact Hop | exact Hw].
  - rewrite closeSession_session, app_nil_r. apply entryAligned_nil.
  - destruct (assignSessionId_session id now w) as [_ ->]. rewrite app_nil_r. exact Hw.
Qed.

Lemma entriesOf_tidy (ops : list Op) :
  forallb tidyOp ops = true -> Forall tidyEntry (entriesOf ops).
Proof.
  induction ops as [| op ops IH]; simpl; [constructor |].
  rewrite andb_true_iff. intros [Hop Hops]. unfold tidyOp in Hop.
  destruct (entryBody op) as [b |]; [| exact (IH Hops)].
  constructor; [| exact (IH Hops)]. exists b. split; [reflexivity | exact Hop].
Qed.

Lemma entriesOf_cons (op : Op) (ops : list Op) :
  entriesOf (op :: ops) = entriesOf [op] ++ entriesOf ops.
Proof. simpl. destruct (entryBody op); reflexivity. Qed.

Lemma run_aligned (cfg : Config) (ops : list Op) :
  forallb tidyOp ops = true ->
  forall hist w,
    Forall tidyEntry hist ->
    entryAligned hist (transcript (session w)) ->
    entryAligned (hist ++ entriesOf ops) (transcript (session (run cfg ops w))).
Proof.
  induction ops as [| op ops IH]; intros Hops hist w Hhist Hw.
  - simpl. rewrite app_nil_r. exact Hw.
  - simpl in Hops. apply andb_true_iff in Hops. destruct Hops as [Hop Hops].
    rewrite entriesOf_cons, app_assoc. simpl run.
    apply (IH Hops).
    + apply Forall_app. split; [exact Hhist |].
      apply (entriesOf_tidy [op]). simpl. rewrite Hop. reflexivity.
    + apply step_aligned; assumption.
Qed.

(** ** Transcript cap: the claims *)

(** C1, as stated, fails. A first message, then a reply of two paragraphs
    whose first paragraph fills the cap: the cut falls at the blank line
    inside the reply, and what is left of the transcript is the second
    paragraph alone, which is no sequence of whole entries. *)
Lemma reply_cut_inside_entry :
  let ops := [ping 0; TrackResponse twoParagraphs] in
  let w := run defaultConfig ops (bootWorld 0) in
  transcript (session w) = lit "tail" ++ NL2
  /\ ~ entryAligned (entriesOf ops) (transcript (session w)).
Proof.
  split.
  - vm_compute. reflexivity.
  - rewrite entryAlignedb_spec. vm_compute. discriminate.
Qed.

(** C1, amended. After every [trackMessage] and every [trackResponse] the
    transcript is no longer than [TRANSCRIPT_MAX_BYTES]. When the cap forces
    a cut, the cut falls right behind a blank-line separator, the first one
    found from index [length - cap] on. This is the end of an entry whenever
    the recorded bodies are tidy (not starting or ending with a line feed
    and containing no blank line): for every sequence of such operations
    from boot, the transcript consists of whole entries. *)
Theorem transcript_capped_cut_behind_separator (cfg : Config) :
  (forall w text userName userId chat now,
     js_length (transcript (session (exec (trackMessage cfg text userName userId chat now) w)))
     <= TRANSCRIPT_MAX_BYTES)
  /\ (forall w response,
        js_length (transcript (session (exec (trackResponse response) w)))
        <= TRANSCRIPT_MAX_BYTES)
  /\ (forall old body,
        let t := old ++ body ++ NL2 in
        js_length t > TRANSCRIPT_MAX_BYTES ->
        exists c : nat,
          js_length t - TRANSCRIPT_MAX_BYTES <= Z.of_nat c
          /\ occursAt NL2 t c
          /\ (forall j, js_length t - TRANSCRIPT_MAX_BYTES <= Z.of_nat j < Z.of_nat c ->
                        ~ occursAt NL2 t j)
          /\ truncateTranscript t = skipn (c + 2) t)
  /\ (forall now ops,
        forallb tidyOp ops = true ->
        entryAligned (entriesOf ops) (transcript (session (run cfg ops (bootWorld now))))).
Proof.
  split; [| split; [| split]].
  - intros. rewrite trackMessage_session. apply truncateTranscript_cap.
  - intros. rewrite trackResponse_session. apply truncateTranscript_cap.
  - intros old body t Ht.
    assert (Heq : t = (old ++ body) ++ NL2) by (unfold t; rewrite <- app_assoc; reflexivity).
    destruct (truncateTranscript_behind_separator (old ++ body)) as (c & Hc & Hocc & Hmin & Hcut).
    { rewrite <- Heq. lia. }
    rewrite <- Heq in *. pose proof cap_value as Hcap. unfold js_length in *.
    exists c. split; [lia |]. split; [exact Hocc |]. split; [| exact Hcut].
    intros j Hj. apply Hmin. lia.
  - intros now ops Hops.
    apply (run_aligned cfg ops Hops [] (bootWorld now)); [constructor | exists 0%nat; reflexivity].
Qed.

(** A first message and a one-line reply that together exceed the cap: the
    cut drops the message and keeps the reply whole. *)
Lemma transcript_capped_cut_behind_separator_witness :
  let ops := [ping 0; TrackResponse longReply] in
  let old := lit "User: ping" ++ NL2 in
  let body := lit "Assistant: " ++ longReply in
  forallb tidyOp ops = true
  /\ entryAligned (entriesOf ops) (transcript (session (run defaultConfig ops (bootWorld 0))))
  /\ transcript (session (run defaultConfig ops (bootWorld 0))) = responseEntry longReply
  /\ js_length (old ++ body ++ NL2) > TRANSCRIPT_MAX_BYTES
  /\ exists c : nat,
       occursAt NL2 (old ++ body ++ NL2) c
       /\ truncateTranscript (old ++ body ++ NL2) = skipn (c + 2) (old ++ body ++ NL2).
Proof.
  intros ops old body.
  destruct (transcript_capped_cut_behind_separator defaultConfig) as (_ & _ & H3 & H4).
  assert (Htidy : forallb tidyOp ops = true) by (vm_compute; reflexivity).
  assert (Hlong : js_length (old ++ body ++ NL2) > TRANSCRIPT_MAX_BYTES)
    by (vm_compute; reflexivity).
  split; [exact Htidy |]. split; [exact (H4 0 ops Htidy) |].
  split; [apply (bool_decide_unpack _); vm_compute; exact I |]. split; [exact Hlong |].
  destruct (H3 old body Hlong) as (c & _ & Hocc & _ & Hcut).
  exists c. split; [exact Hocc | exact Hcut].
Defined.

(** C9. Take a transcript [old] and an appended entry [body ++ "\n\n"]
    whose only separator is the trailing one, such that the result exceeds
    the cap and no separator of the old part begins inside the retained
    window. Then the cut falls behind the entry's own trailing separator and
    the transcript is left empty; this is what [trackResponse] and
    [trackMessage] do to the session. And there is a message longer than the
    cap that, sent to a freshly booted relay, is recorded into an empty
    transcript: nothing of it is kept. *)
Theorem oversized_entry_leaves_nothing :
  (forall old body,
     let t := old ++ body ++ NL2 in
     js_length t > TRANSCRIPT_MAX_BYTES ->
     (forall i, (i < length body)%nat -> ~ occursAt NL2 (body ++ NL2) i) ->
     (forall i, js_length t - TRANSCRIPT_MAX_BYTES <= Z.of_nat i < js_length old ->
                ~ occursAt NL2 t i) ->
     truncateTranscript t = []
     /\ (forall w response,
           old = transcript (session w) ->
           body = lit "Assistant: " ++ response ->
           transcript (session (exec (trackResponse response) w)) = [])
     /\ (forall cfg w text userName userId chat now,
           old = transcript (afterClosure cfg now (session w)) ->
           body = userName ++ lit ": " ++ text ->
           transcript (session (exec (trackMessage cfg text userName userId chat now) w)) = []))
  /\ (exists text,
        js_length text > TRANSCRIPT_MAX_BYTES
        /\ forall cfg userId chat now,
             transcript (session (exec (trackMessage cfg text (lit "User") userId chat now)
                                       (bootWorld now))) = []).
Proof.
  assert (Hgen : forall old body,
            let t := old ++ body ++ NL2 in
            js_length t > TRANSCRIPT_MAX_BYTES ->
            (forall i, (i < length body)%nat -> ~ occursAt NL2 (body ++ NL2) i) ->
            (forall i, js_length t - TRANSCRIPT_MAX_BYTES <= Z.of_nat i < js_length old ->
                       ~ occursAt NL2 t i) ->
            truncateTranscript t = []).
  { intros old body t Hlen Hbody Hold.
    assert (Heq : t = (old ++ body) ++ NL2) by (unfold t; rewrite <- app_assoc; reflexivity).
    destruct (truncateTranscript_behind_separator (old ++ body)) as (c & Hc & Hocc & _ & Hcut).
    { rewrite <- Heq. lia. }
    rewrite <- Heq in *. pose proof cap_value as Hcap.
    assert (Hlt : length t = (length old + length body + 2)%nat)
      by (unfold t; rewrite !length_app; simpl; lia).
    pose proof (occursAt_bound _ _ _ Hocc) as Hbound. simpl length in Hbound.
    assert (Hc_end : c = (length old + length body)%nat).
    { destruct (le_gt_dec (length old) c) as [Hge | Hlt'].
      - destruct (le_gt_dec (length old + length body) c) as [Hge' | Hlt''].
        + unfold js_length in Hlen. lia.
        + exfalso. apply (Hbody (c - length old)%nat); [lia |].
          unfold occursAt in *. unfold t in Hocc.
          rewrite drop_app_ge in Hocc by lia. exact Hocc.
      - exfalso. apply (Hold c); [unfold js_length in *; lia | exact Hocc]. }
    rewrite Hcut. apply skipn_all2. lia. }
  split.
  - intros old body t Hlen Hbody Hold.
    pose proof (Hgen old body Hlen Hbody Hold) as Hempty. fold t in Hempty.
    split; [exact Hempty |]. split.
    + intros w response -> ->. rewrite trackResponse_session. exact Hempty.
    + intros cfg w text userName userId chat now -> ->. rewrite trackMessage_session.
      simpl transcript. rewrite messageEntry_body. exact Hempty.
  - exists longLine. split; [vm_compute; reflexivity |].
    intros cfg userId chat now. rewrite trackMessage_session.
    replace (afterClosure cfg now (session (bootWorld now))) with (newSessionState now)
      by (unfold afterClosure; destruct (shouldCloseSession _ _ _); reflexivity).
    vm_compute. reflexivity.
Qed.

(** The first message of a chat is one line longer than the cap. *)
Lemma oversized_entry_leaves_nothing_witness :
  let old : jsstring := [] in
  let body := lit "User: " ++ longLine in
  js_length (old ++ body ++ NL2) > TRANSCRIPT_MAX_BYTES
  /\ findFirst NL2 (body ++ NL2) = Some (length body)
  /\ truncateTranscript (old ++ body ++ NL2) = []
  /\ transcript (session (exec (trackMessage defaultConfig longLine (lit "User")
                                  "8493500703" "8493500703" 0) (bootWorld 0))) = [].
Proof.
  intros old body.
  assert (Hlen : js_length (old ++ body ++ NL2) > TRANSCRIPT_MAX_BYTES)
    by (vm_compute; reflexivity).
  assert (Hfind : findFirst NL2 (body ++ NL2) = Some (length body))
    by (apply (bool_decide_unpack _); vm_compute; exact I).
  assert (Hbody : forall i, (i < length body)%nat -> ~ occursAt NL2 (body ++ NL2) i)
    by exact (proj2 (findFirst_Some NL2 (body ++ NL2) (length body) Hfind)).
  assert (Hold : forall i,
            js_length (old ++ body ++ NL2) - TRANSCRIPT_MAX_BYTES <= Z.of_nat i < js_length old ->
            ~ occursAt NL2 (old ++ body ++ NL2) i).
  { intros i Hi. exfalso. change (js_length old) with 0 in Hi. lia. }
  destruct oversized_entry_leaves_nothing as [H _].
  destruct (H old body Hlen Hbody Hold) as (Hcut & _ & Hmsg).
  split; [exact Hlen |]. split; [exact Hfind |]. split; [exact Hcut |].
  apply (Hmsg defaultConfig (bootWorld 0)); reflexivity.
Defined.

(** ** Assistant timeout *)

Lemma raceStdout_timeout (env : ProcEnv) :
  exceedsTimeout env -> raceStdout env = TimedOut.
Proof.
  unfold exceedsTimeout, raceStdout. destruct (stdoutAfter env) as [d |]; [| reflexivity].
  intros Hd. replace (d <? CLAUDE_TIMEOUT_MS) with false by (symmetry; apply Z.ltb_ge; lia).
  reflexivity.
Qed.

(** C4. The timeout is five minutes. When the process was spawned and the
    read of its output is still pending after the timeout, [callClaude]
    completes normally with the fixed timeout reply: it has sent the
    termination signal at the timeout, the kill signal is sent 5000 ms
    later exactly if the liveness probe then finds the process alive, the
    process id is taken off the child registry, and the session is left
    alone. And whatever the process and the system do, [callClaude]
    completes normally, never by throwing. *)
Theorem callClaude_timeout_is_a_result (env : ProcEnv) (opts : ClaudeOptions) (t0 : Z)
    (w : World) (pid : Z) :
  spawnPid env = Some pid ->
  exceedsTimeout env ->
  let deadline := t0 + CLAUDE_TIMEOUT_MS in
  let w' := exec (callClaude env opts t0) w in
  CLAUDE_TIMEOUT_MS = 5 * 60 * 1000
  /\ eval (callClaude env opts t0) w = Normal TIMEOUT_REPLY
  /\ signals w' =
       signals w ++ [mkSent deadline pid SIGTERM] ++
       (if aliveAt env (deadline + 5000) then [mkSent (deadline + 5000) pid SIGKILL] else [])
  /\ childPids w' = List.filter (fun p => negb (p =? pid)) (childPids w ++ [pid])
  /\ ~ In pid (childPids w')
  /\ session w' = session w
  /\ (forall env' opts' t w0, exists reply, eval (callClaude env' opts' t) w0 = Normal reply).
Proof.
  intros Hspawn Hlate deadline w'.
  assert (Hrun : callClaude env opts t0 w =
                 (Normal TIMEOUT_REPLY,
                  {| session := session w;
                     sessionFile := sessionFile w;
                     background := background w;
                     childPids := List.filter (fun p => negb (p =? pid)) (childPids w ++ [pid]);
                     signals :=
                       signals w ++ [mkSent deadline pid SIGTERM] ++
                       (if aliveAt env (deadline + 5000)
                        then [mkSent (deadline + 5000) pid SIGKILL] else []) |})).
  { unfold callClaude. rewrite Hspawn. unfold awaitClaude.
    rewrite (raceStdout_timeout env Hlate).
    unfold onTimeout, escalate, registerChildPid, unregisterChildPid, loadChildPids,
      saveChildPids, kill, bind, ret. fold deadline. simpl.
    destruct (aliveAt env (deadline + 5000)); simpl.
    - rewrite <- app_assoc. reflexivity.
    - reflexivity. }
  unfold w', exec, eval. rewrite Hrun. simpl.
  split; [reflexivity |]. split; [reflexivity |]. split; [reflexivity |].
  split; [reflexivity |]. split.
  - rewrite filter_In, negb_true_iff, Z.eqb_neq. tauto.
  - split; [reflexivity |].
    intros env' opts' t w0. unfold eval, callClaude.
    destruct (spawnPid env') as [pid' |]; [| eexists; reflexivity].
    unfold bind at 1 2. destruct (registerChildPid pid' w0) as [u w1].
    destruct (awaitClaude env' opts' pid' t w1) as [[reply | err] w2];
      unfold bind; destruct (unregisterChildPid pid' w2); eexists; reflexivity.
Qed.

(** A hung process that also ignores the termination signal. *)
Lemma callClaude_timeout_is_a_result_witness :
  let w' := exec (callClaude hungProcess (mkOptions true false) 0) (bootWorld 0) in
  spawnPid hungProcess = Some 4242
  /\ exceedsTimeout hungProcess
  /\ eval (callClaude hungProcess (mkOptions true false) 0) (bootWorld 0) = Normal TIMEOUT_REPLY
  /\ signals w' = [mkSent 300000 4242 SIGTERM; mkSent 305000 4242 SIGKILL]
  /\ childPids w' = [].
Proof.
  intros w'.
  destruct (callClaude_timeout_is_a_result hungProcess (mkOptions true false) 0
              (bootWorld 0) 4242 eq_refl I) as (_ & Hreply & Hsig & Hpids & _).
  split; [reflexivity |]. split; [exact I |]. split; [exact Hreply |].
  split; [exact Hsig | exact Hpids].
Defined.

(** * Further properties of the relay *)

(** ** The cap policy only drops a prefix *)

(** X1. The cap policy never rewrites what it keeps: its result is the
    input with some number of leading characters dropped, the input itself
    when it fits the cap, and applying the policy a second time changes
    nothing. *)
Theorem truncateTranscript_suffix_idempotent (t : jsstring) :
  (exists n : nat, truncateTranscript t = skipn n t)
  /\ (js_length t <= TRANSCRIPT_MAX_BYTES -> truncateTranscript t = t)
  /\ truncateTranscript (truncateTranscript t) = truncateTranscript t.
Proof.
  split; [| split].
  - destruct (Z_le_gt_dec (js_length t) TRANSCRIPT_MAX_BYTES) as [Hle | Hgt].
    + exists 0%nat. apply truncateTranscript_small. exact Hle.
    + rewrite truncateTranscript_cut by lia.
      destruct (findFirst NL2 _) as [i |]; eexists; reflexivity.
  - apply truncateTranscript_small.
  - apply truncateTranscript_small. apply truncateTranscript_cap.
Qed.

(** A transcript of the cap's size. *)
Lemma truncateTranscript_suffix_idempotent_witness :
  js_length (repeat "a"%char (Z.to_nat TRANSCRIPT_MAX_BYTES)) <= TRANSCRIPT_MAX_BYTES
  /\ js_length (truncateTranscript (repeat "a"%char (Z.to_nat TRANSCRIPT_MAX_BYTES)))
     = TRANSCRIPT_MAX_BYTES.
Proof.
  assert (H : js_length (repeat "a"%char (Z.to_nat TRANSCRIPT_MAX_BYTES))
              <= TRANSCRIPT_MAX_BYTES) by (vm_compute; discriminate).
  split; [exact H |].
  destruct (truncateTranscript_suffix_idempotent
              (repeat "a"%char (Z.to_nat TRANSCRIPT_MAX_BYTES))) as (_ & Hsame & _).
  rewrite (Hsame H). vm_compute. reflexivity.
Defined.

(** Appending an entry that leaves two characters of room under the cap to
    a closed-off transcript keeps the entry whole at the end. *)
Lemma truncateTranscript_keeps_entry (old entry : jsstring) :
  closedOff old ->
  js_length entry + 2 <= TRANSCRIPT_MAX_BYTES ->
  exists n : nat, truncateTranscript (old ++ entry) = skipn n old ++ entry.
Proof.
  intros Hold Hentry.
  destruct (Z_le_gt_dec (js_length (old ++ entry)) TRANSCRIPT_MAX_BYTES) as [Hle | Hgt].
  - exists 0%nat. apply truncateTranscript_small. exact Hle.
  - pose proof cap_value as Hcap.
    assert (Hlen : length (old ++ entry) = (length old + length entry)%nat)
      by apply length_app.
    destruct Hold as [-> | [x ->]].
    + exfalso. simpl in Hgt. lia.
    + rewrite truncateTranscript_cut by lia.
      set (k := (length ((x ++ NL2) ++ entry) - Z.to_nat TRANSCRIPT_MAX_BYTES)%nat).
      assert (Hx : length (x ++ NL2) = (length x + 2)%nat)
        by (rewrite length_app; reflexivity).
      assert (Hk : (k <= length x)%nat) by (unfold k, js_length in *; lia).
      assert (Hocc : occursAt NL2 (skipn k ((x ++ NL2) ++ entry)) (length x - k)).
      { apply occursAt_skipn. replace (k + (length x - k))%nat with (length x) by lia.
        unfold occursAt. rewrite <- app_assoc, drop_app_length. reflexivity. }
      destruct (findFirst_occurs _ _ _ Hocc) as (i & -> & Hi).
      exists (k + i + 2)%nat. apply drop_app_le. lia.
Qed.

(** X2. The counterpart of the oversized entry: when the transcript so far
    is empty or ends with the separator and the entry to append is at least
    two characters shorter than the cap, [trackResponse] and [trackMessage]
    keep that entry whole; the new transcript is a tail of the old one
    followed by the complete entry. *)
Theorem recorded_entry_is_kept_whole (cfg : Config) :
  (forall w response,
     closedOff (transcript (session w)) ->
     js_length (responseEntry response) + 2 <= TRANSCRIPT_MAX_BYTES ->
     exists n : nat,
       transcript (session (exec (trackResponse response) w))
       = skipn n (transcript (session w)) ++ responseEntry response)
  /\ (forall w text userName userId chat now,
        closedOff (transcript (session w)) ->
        js_length (messageEntry userName text) + 2 <= TRANSCRIPT_MAX_BYTES ->
        exists n : nat,
          transcript (session (exec (trackMessage cfg text userName userId chat now) w))
          = skipn n (transcript (session w)) ++ messageEntry userName text).
Proof.
  split.
  - intros w response Hold Hfit. rewrite trackResponse_session.
    apply truncateTranscript_keeps_entry; assumption.
  - intros w text userName userId chat now Hold Hfit. rewrite trackMessage_session.
    simpl transcript. unfold afterClosure.
    destruct (shouldCloseSession cfg now (session w)).
    + exists (length (transcript (session w))). rewrite skipn_all. simpl.
      apply truncateTranscript_small. lia.
    + apply truncateTranscript_keeps_entry; assumption.
Qed.

(** A transcript filled by one long reply, then a short message. *)
Lemma recorded_entry_is_kept_whole_witness :
  let w := run defaultConfig [TrackResponse longReply] (bootWorld 0) in
  closedOff (transcript (session w))
  /\ js_length (messageEntry (lit "User") (lit "ping")) + 2 <= TRANSCRIPT_MAX_BYTES
  /\ exists n : nat,
       transcript (session (exec (step defaultConfig (ping 0)) w))
       = skipn n (transcript (session w)) ++ messageEntry (lit "User") (lit "ping").
Proof.
  intros w.
  assert (Hold : closedOff (transcript (session w))).
  { right. exists (lit "Assistant: " ++ longReply).
    apply (bool_decide_unpack _). vm_compute. exact I. }
  assert (Hfit : js_length (messageEntry (lit "User") (lit "ping")) + 2 <= TRANSCRIPT_MAX_BYTES)
    by (vm_compute; discriminate).
  split; [exact Hold |]. split; [exact Hfit |].
  exact (proj2 (recorded_entry_is_kept_whole defaultConfig) w (lit "ping") (lit "User")
           "8493500703"%string "8493500703"%string 0 Hold Hfit).
Defined.

(** ** Invariants of the session *)

Lemma includes_In (l : list string) (x : string) :
  includes l x = true <-> In x l.
Proof.
  unfold includes. rewrite existsb_exists. split.
  - intros (y & Hy & Heq). apply String.eqb_eq in Heq. subst y. exact Hy.
  - intros Hx. exists x. split; [exact Hx | apply String.eqb_refl].
Qed.

Lemma NoDup_snoc {A} (l : list A) (x : A) :
  List.NoDup l -> ~ In x l -> List.NoDup (l ++ [x]).
Proof.
  intros Hl Hx. apply NoDup_ListNoDup. apply NoDup_app. split; [| split].
  - apply NoDup_ListNoDup. exact Hl.
  - intros y Hy Hy'. apply list_elem_of_In in Hy. apply list_elem_of_In in Hy'.
    destruct Hy' as [<- | []]. exact (Hx Hy).
  - apply NoDup_singleton.
Qed.

(** Splits a goal about [callClaude] into the ways a call can go: the spawn
    fails; the output arrives in time, with a non-zero or zero exit status,
    output that parses or not, a session id to keep or not; the read
    rejects; the timeout fires on a live or a dead process. *)
Ltac callClaude_cases env :=
  unfold exec, eval, callClaude, awaitClaude, registerChildPid, unregisterChildPid,
    loadChildPids, saveChildPids, onTimeout, escalate, kill, assignSessionId,
    getSession, setSession, saveSession, bind, ret;
  destruct (spawnPid env) as [?pid |]; simpl;
  [ destruct (raceStdout env) as [?output | |] eqn:?Hrace; simpl;
    [ destruct (exitCode env =? 0) eqn:?Hexit; simpl;
      [ destruct (parseJSON env _) as [?json |] eqn:?Hparse; simpl;
        [ destruct (json_session_id _) as [?id |] eqn:?Hid; simpl;
          [ destruct (_ && _) eqn:?Hkeep; simpl | ]
        | ]
      | ]
    |
    | destruct (aliveAt env _) eqn:?Halive; simpl ]
  | ].

Lemma trackMessage_run (cfg : Config) text userName userId chat now (w : World) :
  exec (trackMessage cfg text userName userId chat now) w =
    let w0 := match shouldCloseSession cfg now (session w) with
              | Some r => exec (closeSession cfg (reasonString r) now) w
              | None => w
              end in
    let s' := recordMessage text userName userId chat now (session w0) in
    {| session := s'; sessionFile := Some s'; background := background w0;
       childPids := childPids w0; signals := signals w0 |}.
Proof.
  unfold trackMessage, exec, bind, getSession, setSession, saveSession, ret. simpl.
  destruct (shouldCloseSession cfg now (session w)) as [r |]; [| reflexivity].
  destruct (closeSession cfg (reasonString r) now w) as [count w0]. reflexivity.
Qed.

(** X3. After every operation on the session the session file holds exactly
    the live session; and [callClaude] keeps file and session in step,
    whatever the assistant process does. *)
Theorem session_file_in_step (cfg : Config) :
  (forall w op, synced (exec (step cfg op) w))
  /\ (forall env opts t0 w, synced w -> synced (exec (callClaude env opts t0) w)).
Proof.
  split.
  - intros w [text userName userId chat now | response | reason now | id now];
      unfold synced, step.
    + rewrite trackMessage_run. reflexivity.
    + reflexivity.
    + unfold exec, bind. rewrite closeSession_run. reflexivity.
    + reflexivity.
  - intros env opts t0 w Hw. unfold synced in *.
    callClaude_cases env; first [exact Hw | reflexivity].
Qed.

(** A relay that booted without a session file, after its first message
    and an assistant call that hangs. *)
Lemma session_file_in_step_witness :
  let w := exec (step defaultConfig (ping 0)) (bootWorld 0) in
  synced w
  /\ synced (exec (callClaude hungProcess (mkOptions true false) 0) w).
Proof.
  intros w.
  destruct (session_file_in_step defaultConfig) as [Hstep Hcall].
  split; [apply Hstep | apply Hcall; apply Hstep].
Defined.

(** X4. In every world a booted relay reaches, the participant list has no
    duplicates, the message count is not negative, and there are at most as
    many participants as messages; every operation preserves the three
    together. *)
Theorem participants_bounded_by_messages (cfg : Config) :
  let good (s : SessionState) :=
    List.NoDup (userIds s)
    /\ 0 <= messageCount s
    /\ Z.of_nat (length (userIds s)) <= messageCount s in
  (forall w op, good (session w) -> good (session (exec (step cfg op) w)))
  /\ (forall w, reachable cfg w -> good (session w)).
Proof.
  intros good.
  assert (Hnew : forall now, good (newSessionState now)).
  { intros now. unfold good. simpl. split; [constructor | lia]. }
  assert (Hstep : forall w op, good (session w) -> good (session (exec (step cfg op) w))).
  { intros w [text userName userId chat now | response | reason now | id now] Hw;
      unfold step.
    - rewrite trackMessage_session.
      assert (Hs : good (afterClosure cfg now (session w))).
      { unfold afterClosure. destruct (shouldCloseSession cfg now (session w));
          [apply Hnew | exact Hw]. }
      destruct Hs as (Hnd & Hpos & Hlen). unfold good. simpl.
      destruct (includes (userIds (afterClosure cfg now (session w))) userId) eqn:Hin.
      + split; [exact Hnd | lia].
      + split.
        * apply NoDup_snoc; [exact Hnd |]. rewrite <- includes_In, Hin. discriminate.
        * rewrite length_app. simpl. lia.
    - rewrite trackResponse_session. exact Hw.
    - rewrite closeSession_session. apply Hnew.
    - exact Hw. }
  split; [exact Hstep |].
  intros w Hreach. induction Hreach as [now | w op Hreach IH]; [apply Hnew |].
  apply Hstep. exact IH.
Qed.

(** Two messages of the same user. *)
Lemma participants_bounded_by_messages_witness :
  let s := session (run defaultConfig [ping 0; ping 1] (bootWorld 0)) in
  List.NoDup (userIds s) /\ 0 <= messageCount s
  /\ Z.of_nat (length (userIds s)) <= messageCount s.
Proof.
  apply (participants_bounded_by_messages defaultConfig).
  apply (reachable_run defaultConfig [ping 0; ping 1]). apply reach_boot.
Defined.

(** X5. Over any sequence of operations in which no close happens, the
    message count grows by exactly the number of inbound messages
    recorded; replies and session-id assignments do not count. *)
Theorem messageCount_counts_inbound (cfg : Config) (ops : list Op) (w : World) :
  noClosure cfg ops w = true ->
  messageCount (session (run cfg ops w)) = messageCount (session w) + inboundCount ops.
Proof.
  revert w. induction ops as [| op ops IH]; intros w Hquiet.
  - unfold inboundCount. simpl. lia.
  - simpl in Hquiet. apply andb_true_iff in Hquiet. destruct Hquiet as [Hop Hrest].
    simpl run. rewrite (IH _ Hrest). unfold inboundCount. simpl List.filter.
    destruct op as [text userName userId chat now | response | reason now | id now];
      simpl isTrackMessage; cbv iota.
    + unfold step. rewrite trackMessage_session. unfold afterClosure.
      destruct (shouldCloseSession cfg now (session w)); [discriminate |].
      simpl length. simpl messageCount. lia.
    + reflexivity.
    + discriminate.
    + reflexivity.
Qed.

(** A message, its reply, the session id and a second message. *)
Lemma messageCount_counts_inbound_witness :
  let ops := [ping 0; TrackResponse (lit "pong"); AssignSessionId "abc" 5; ping 9] in
  noClosure defaultConfig ops (bootWorld 0) = true
  /\ messageCount (session (run defaultConfig ops (bootWorld 0))) = 2.
Proof.
  intros ops.
  assert (H : noClosure defaultConfig ops (bootWorld 0) = true) by reflexivity.
  split; [exact H |].
  rewrite (messageCount_counts_inbound defaultConfig ops (bootWorld 0) H). reflexivity.
Defined.

(** X6. Waiting never cancels a closure that is due: if the closure check
    fires at some instant, it fires with the same reason at every later
    instant, as long as the session is not touched. *)
Theorem closure_stays_due (cfg : Config) (s : SessionState) (now later : Z)
    (r : CloseReason) :
  now <= later ->
  shouldCloseSession cfg now s = Some r ->
  shouldCloseSession cfg later s = Some r.
Proof.
  intros Hlater. destruct r.
  - rewrite !shouldCloseSession_idle. lia.
  - rewrite !shouldCloseSession_limit. lia.
Qed.

(** A session with one message, idle for 31 and then for 45 minutes. *)
Lemma closure_stays_due_witness :
  let s := session (run defaultConfig [ping 0] (bootWorld 0)) in
  31 * 60 * 1000 <= 45 * 60 * 1000
  /\ shouldCloseSession defaultConfig (31 * 60 * 1000) s = Some idle
  /\ shouldCloseSession defaultConfig (45 * 60 * 1000) s = Some idle.
Proof.
  intros s.
  assert (Hle : 31 * 60 * 1000 <= 45 * 60 * 1000) by lia.
  assert (H31 : shouldCloseSession defaultConfig (31 * 60 * 1000) s = Some idle)
    by reflexivity.
  split; [exact Hle |]. split; [exact H31 |].
  exact (closure_stays_due defaultConfig s _ _ idle Hle H31).
Defined.

(** ** More about the concurrency gate *)

(** X7. A request that carries no user id (or an empty one) is never held
    back: every acquire succeeds, and neither acquire nor release touches
    the table of busy users. *)
Theorem gate_ignores_missing_user (userId : option string) (active : gmap string bool) :
  truthy userId = false ->
  tryAcquire userId active = (true, active)
  /\ tryAcquire userId (snd (tryAcquire userId active)) = (true, active)
  /\ release userId active = active.
Proof.
  intros Hfalsy.
  assert (H : tryAcquire userId active = (true, active)).
  { unfold tryAcquire, isUserBusy, markUserBusy.
    destruct userId as [u |]; [rewrite Hfalsy |]; reflexivity. }
  split; [exact H |]. split.
  - rewrite H. exact H.
  - unfold release, markUserFree. destruct userId as [u |]; [rewrite Hfalsy |]; reflexivity.
Qed.

(** An update without a sender while the owner is busy. *)
Lemma gate_ignores_missing_user_witness :
  let active : gmap string bool := {[ "8493500703"%string := true ]} in
  truthy None = false
  /\ tryAcquire None active = (true, active)
  /\ release None active = active.
Proof.
  intros active.
  destruct (gate_ignores_missing_user None active eq_refl) as (H1 & _ & H3).
  split; [reflexivity |]. split; [exact H1 | exact H3].
Defined.

(** X8. Acquire and release undo each other: for a user id with no entry
    in the table, acquiring and then releasing gives back the very same
    table; releasing twice is the same as releasing once; and a release
    leaves the user free whether or not an acquire came before. *)
Theorem gate_release_restores (userId : option string) (active : gmap string bool) :
  (forall u, userId = Some u -> active !! u = None ->
             release userId (snd (tryAcquire userId active)) = active)
  /\ release userId (release userId active) = release userId active
  /\ isUserBusy userId (release userId active) = false.
Proof.
  split; [| split].
  - intros u -> Hfresh. unfold release, markUserFree, tryAcquire, isUserBusy, markUserBusy.
    rewrite Hfresh. destruct (truthy (Some u)); simpl; [| reflexivity].
    apply delete_insert_id. exact Hfresh.
  - unfold release, markUserFree. destruct userId as [u |]; [| reflexivity].
    destruct (truthy (Some u)); [| reflexivity].
    apply delete_id. apply lookup_delete_eq.
  - apply isUserBusy_markUserFree.
Qed.

(** The owner's first request while the other user is busy. *)
Lemma gate_release_restores_witness :
  let active : gmap string bool := {[ "8253689321"%string := true ]} in
  let owner := Some "8493500703"%string in
  active !! "8493500703"%string = None
  /\ release owner (snd (tryAcquire owner active)) = active.
Proof.
  intros active owner.
  assert (Hfresh : active !! "8493500703"%string = None) by reflexivity.
  split; [exact Hfresh |].
  exact (proj1 (gate_release_restores owner active) _ eq_refl Hfresh).
Defined.

(** ** Child process registry *)

Lemma filter_absent (pid : Z) (pids : list Z) :
  ~ In pid pids -> List.filter (fun p => negb (p =? pid)) pids = pids.
Proof.
  induction pids as [| p pids IH]; intros Hnot; [reflexivity |].
  simpl. destruct (Z.eqb_spec p pid) as [-> | Hne]; simpl.
  - exfalso. apply Hnot. left. reflexivity.
  - f_equal. apply IH. intros Hin. apply Hnot. right. exact Hin.
Qed.

(** X9. Registering a process id and unregistering it again gives back the
    registry as it was, provided the id was not in it; unregistering takes
    out every occurrence of the id and nothing else, and keeps the order
    of the others. *)
Theorem registry_round_trip (pid : Z) (w : World) :
  (~ In pid (childPids w) ->
     childPids (exec (registerChildPid pid >> unregisterChildPid pid) w) = childPids w)
  /\ ~ In pid (childPids (exec (unregisterChildPid pid) w))
  /\ (forall other, other <> pid ->
        (In other (childPids (exec (unregisterChildPid pid) w)) <-> In other (childPids w)))
  /\ childPids (exec (unregisterChildPid pid) w)
     = List.filter (fun p => negb (p =? pid)) (childPids w)
  /\ childPids (exec (registerChildPid pid) w) = childPids w ++ [pid].
Proof.
  split; [| split; [| split; [| split]]]; try reflexivity.
  - intros Hnot. unfold exec, registerChildPid, unregisterChildPid, loadChildPids,
      saveChildPids, bind. simpl.
    rewrite List.filter_app, (filter_absent pid _ Hnot). simpl.
    rewrite Z.eqb_refl. simpl. apply app_nil_r.
  - simpl. rewrite filter_In, negb_true_iff, Z.eqb_neq. tauto.
  - intros other Hne. simpl. rewrite filter_In, negb_true_iff, Z.eqb_neq. tauto.
Qed.

(** One earlier child in the registry. *)
Lemma registry_round_trip_witness :
  let w := exec (registerChildPid 17) (bootWorld 0) in
  ~ In 4242 (childPids w)
  /\ childPids (exec (registerChildPid 4242 >> unregisterChildPid 4242) w) = [17].
Proof.
  intros w.
  assert (Hnot : ~ In 4242 (childPids w)).
  { simpl. intros [H | []]. discriminate H. }
  split; [exact Hnot |].
  exact (proj1 (registry_round_trip 4242 w) Hnot).
Defined.

Lemma forEach_ext {A} (f g : A -> M unit) (xs : list A) (w : World) :
  (forall x w0, f x w0 = g x w0) -> forEach f xs w = forEach g xs w.
Proof.
  intros Hfg. revert w. induction xs as [| x xs IH]; intros w; [reflexivity |].
  simpl. unfold bind. rewrite Hfg. destruct (g x w) as [u w1]. apply IH.
Qed.

Lemma forEach_signals (c : Z -> bool) (sig : Signal) (t : Z) (pids : list Z) (w : World) :
  forEach (fun pid => if c pid then kill pid sig t else ret tt) pids w =
    (tt,
     {| session := session w; sessionFile := sessionFile w; background := background w;
        childPids := childPids w;
        signals := signals w ++ map (fun pid => mkSent t pid sig) (List.filter c pids) |}).
Proof.
  revert w. induction pids as [| pid pids IH]; intros w.
  - simpl. rewrite app_nil_r. destruct w; reflexivity.
  - simpl forEach. unfold bind at 1. simpl List.filter.
    destruct (c pid) eqn:Hc.
    + unfold kill at 1. rewrite IH. simpl. rewrite <- app_assoc. reflexivity.
    + unfold ret at 1. rewrite IH. reflexivity.
Qed.

Lemma cleanupOrphanedProcesses_run (probe : Z -> Z -> bool) (t : Z) (w : World) :
  exec (cleanupOrphanedProcesses probe t) w =
    match childPids w with
    | [] => w
    | _ :: _ =>
        {| session := session w; sessionFile := sessionFile w; background := background w;
           childPids := [];
           signals :=
             signals w
             ++ map (fun pid => mkSent t pid SIGTERM)
                    (List.filter (fun pid => probe pid t) (childPids w))
             ++ map (fun pid => mkSent (t + 5000) pid SIGKILL)
                    (List.filter (fun pid => probe pid t && probe pid (t + 5000))
                                 (childPids w)) |}
    end.
Proof.
  unfold cleanupOrphanedProcesses, exec, bind at 1, loadChildPids.
  destruct (childPids w) as [| p pids] eqn:Hpids; [reflexivity |].
  unfold bind at 1. rewrite forEach_signals.
  unfold bind at 1, saveChildPids at 1.
  rewrite (forEach_ext _ (fun pid => if probe pid t && probe pid (t + 5000)
                                     then kill pid SIGKILL (t + 5000) else ret tt)).
  - rewrite forEach_signals. simpl. rewrite <- app_assoc. reflexivity.
  - intros x w0. destruct (probe x t); reflexivity.
Qed.

(** X10. Orphan cleanup: afterwards the registry is empty and the session
    is untouched; the termination signal goes exactly to the registered
    processes that the probe found alive, in registry order; the kill
    signal follows 5000 ms later exactly for those of them that the second
    probe still finds alive; a process the first probe found dead receives
    no signal at all. *)
Theorem cleanup_signals_only_the_living (probe : Z -> Z -> bool) (t : Z) (w : World) :
  let w' := exec (cleanupOrphanedProcesses probe t) w in
  childPids w' = []
  /\ session w' = session w
  /\ signals w' =
       signals w
       ++ map (fun pid => mkSent t pid SIGTERM)
              (List.filter (fun pid => probe pid t) (childPids w))
       ++ map (fun pid => mkSent (t + 5000) pid SIGKILL)
              (List.filter (fun pid => probe pid t && probe pid (t + 5000)) (childPids w))
  /\ (forall s, In s (signals w') -> ~ In s (signals w) ->
        In (sent_pid s) (childPids w) /\ probe (sent_pid s) t = true)
  /\ (forall pid, In pid (childPids w) -> probe pid t = true ->
        In (mkSent t pid SIGTERM) (signals w')).
Proof.
  intros w'.
  assert (Hsig : signals w' =
                 signals w
                 ++ map (fun pid => mkSent t pid SIGTERM)
                        (List.filter (fun pid => probe pid t) (childPids w))
                 ++ map (fun pid => mkSent (t + 5000) pid SIGKILL)
                        (List.filter (fun pid => probe pid t && probe pid (t + 5000))
                                     (childPids w))).
  { unfold w'. rewrite cleanupOrphanedProcesses_run.
    destruct (childPids w); [simpl; rewrite app_nil_r |]; reflexivity. }
  split; [| split; [| split; [exact Hsig | split]]].
  - unfold w'. rewrite cleanupOrphanedProcesses_run.
    destruct (childPids w) eqn:H; [exact H | reflexivity].
  - unfold w'. rewrite cleanupOrphanedProcesses_run. destruct (childPids w); reflexivity.
  - intros s Hin Hnew. rewrite Hsig in Hin.
    apply in_app_or in Hin. destruct Hin as [Hin | Hin]; [contradiction |].
    apply in_app_or in Hin. destruct Hin as [Hin | Hin];
      apply in_map_iff in Hin; destruct Hin as (pid & <- & Hpid);
      apply filter_In in Hpid; destruct Hpid as [Hpid Hprobe]; simpl.
    + split; assumption.
    + apply andb_true_iff in Hprobe. split; [exact Hpid | apply Hprobe].
  - intros pid Hpid Hprobe. rewrite Hsig. apply in_or_app. right. apply in_or_app. left.
    apply in_map_iff. exists pid. split; [reflexivity |].
    apply filter_In. split; assumption.
Qed.

(** The previous run left one living and one dead child behind. *)
Lemma cleanup_signals_only_the_living_witness :
  let w := exec (registerChildPid 11 >> registerChildPid 22) (bootWorld 0) in
  let probe := fun (pid t : Z) => (pid =? 11) && (t <? 1000) in
  let w' := exec (cleanupOrphanedProcesses probe 0) w in
  In 11 (childPids w) /\ probe 11 0 = true
  /\ childPids w' = []
  /\ signals w' = [mkSent 0 11 SIGTERM].
Proof.
  intros w probe w'.
  destruct (cleanup_signals_only_the_living probe 0 w) as (Hpids & _ & Hsig & _ & _).
  split; [left; reflexivity |]. split; [reflexivity |].
  split; [exact Hpids | exact Hsig].
Defined.

(** ** More about calling the assistant *)

Lemma raceStdout_cases (env : ProcEnv) :
  match raceStdout env with
  | Resolved output =>
      exists d, stdoutAfter env = Some d /\ d < CLAUDE_TIMEOUT_MS
                /\ stdoutText env = Some output
  | Rejected =>
      exists d, stdoutAfter env = Some d /\ d < CLAUDE_TIMEOUT_MS
                /\ stdoutText env = None
  | TimedOut =>
      stdoutAfter env = None
      \/ exists d, stdoutAfter env = Some d /\ CLAUDE_TIMEOUT_MS <= d
  end.
Proof.
  unfold raceStdout. destruct (stdoutAfter env) as [d |]; [| left; reflexivity].
  destruct (Z.ltb_spec d CLAUDE_TIMEOUT_MS) as [Hlt | Hge].
  - destruct (stdoutText env) as [output |]; exists d; repeat split; assumption.
  - right. exists d. split; [reflexivity | exact Hge].
Qed.

Lemma callClaude_childPids (env : ProcEnv) (opts : ClaudeOptions) (t0 : Z) (w : World) :
  childPids (exec (callClaude env opts t0) w) =
    match spawnPid env with
    | Some pid => List.filter (fun p => negb (p =? pid)) (childPids w ++ [pid])
    | None => childPids w
    end.
Proof. callClaude_cases env; reflexivity. Qed.

(** X11. Whatever way a call to the assistant ends (reply, error exit,
    unreadable output, timeout), the process id it registered is off the
    registry afterwards, and a registry that did not hold that id before is
    exactly as it was; a call whose spawn fails does not touch the
    registry. *)
Theorem callClaude_leaves_registry_clean (env : ProcEnv) (opts : ClaudeOptions) (t0 : Z)
    (w : World) :
  let w' := exec (callClaude env opts t0) w in
  (forall pid, spawnPid env = Some pid ->
     ~ In pid (childPids w')
     /\ (~ In pid (childPids w) -> childPids w' = childPids w))
  /\ (spawnPid env = None -> childPids w' = childPids w).
Proof.
  intros w'. unfold w'. rewrite callClaude_childPids. split.
  - intros pid ->. split.
    + rewrite filter_In, negb_true_iff, Z.eqb_neq. tauto.
    + intros Hnot. rewrite List.filter_app, (filter_absent pid _ Hnot). simpl.
      rewrite Z.eqb_refl. simpl. apply app_nil_r.
  - intros ->. reflexivity.
Qed.

(** A hung assistant, with one unrelated child registered. *)
Lemma callClaude_leaves_registry_clean_witness :
  let w := exec (registerChildPid 17) (bootWorld 0) in
  spawnPid hungProcess = Some 4242
  /\ ~ In 4242 (childPids w)
  /\ childPids (exec (callClaude hungProcess (mkOptions true false) 0) w) = [17].
Proof.
  intros w.
  assert (Hnot : ~ In 4242 (childPids w)).
  { simpl. intros [H | []]. discriminate H. }
  destruct (callClaude_leaves_registry_clean hungProcess (mkOptions true false) 0 w)
    as [H _].
  split; [reflexivity |]. split; [exact Hnot |].
  exact (proj2 (H 4242 eq_refl) Hnot).
Defined.



(** X13. [callClaude] signals nobody unless the timeout fires: when the
    read of the output settles before the timeout, or the spawn fails, the
    list of sent signals is unchanged (a failed spawn leaves the whole
    world unchanged and yields the fixed error reply); and any signal a
    call does send goes to the process it spawned, not before the
    timeout. *)
Theorem callClaude_signals_only_on_timeout (env : ProcEnv) (opts : ClaudeOptions) (t0 : Z)
    (w : World) :
  let w' := exec (callClaude env opts t0) w in
  (forall d, stdoutAfter env = Some d -> d < CLAUDE_TIMEOUT_MS -> signals w' = signals w)
  /\ (spawnPid env = None ->
        w' = w /\ eval (callClaude env opts t0) w = Normal SPAWN_ERROR_REPLY)
  /\ (forall s, In s (signals w') -> ~ In s (signals w) ->
        spawnPid env = Some (sent_pid s) /\ t0 + CLAUDE_TIMEOUT_MS <= sent_at s).
Proof.
  intros w'. unfold w'. pose proof (raceStdout_cases env) as Hcases.
  callClaude_cases env.
  all: split; [| split].
  all: try (intros d Hd Hlt;
            first [ reflexivity
                  | destruct Hcases as [Hc | (d' & Hc & Hge)]; rewrite Hc in Hd;
                    [discriminate | injection Hd as ->; lia] ]).
  all: try (intros Hnone; first [discriminate | destruct w; split; reflexivity]).
  all: intros s Hin Hnew; try contradiction.
  all: rewrite ?in_app_iff in Hin; simpl in Hin;
    repeat match goal with
           | H : _ \/ _ |- _ => destruct H as [H | H]
           end;
    try contradiction; subst s; simpl; split; first [reflexivity | lia].
Qed.

(** A prompt assistant gets no signal. *)
Lemma callClaude_signals_only_on_timeout_witness :
  stdoutAfter promptProcess = Some 900
  /\ 900 < CLAUDE_TIMEOUT_MS
  /\ signals (exec (callClaude promptProcess (mkOptions true false) 0) (bootWorld 0)) = [].
Proof.
  assert (Hlt : 900 < CLAUDE_TIMEOUT_MS) by reflexivity.
  split; [reflexivity |]. split; [exact Hlt |].
  exact (proj1 (callClaude_signals_only_on_timeout promptProcess (mkOptions true false) 0
                  (bootWorld 0)) 900 eq_refl Hlt).
Defined.

(** X14. The replies of a call whose output arrives in time. With a
    non-zero exit status the reply is ["Error: "] followed by the standard
    error text, or by ["Claude exited with code N"] when that text is
    empty, and the session is left alone. With exit status 0, output that
    does not parse is returned trimmed, and parsed output yields its
    result, or ["No response"] when the result is missing or empty. A read
    that rejects yields the fixed error reply. *)
Theorem callClaude_replies (env : ProcEnv) (opts : ClaudeOptions) (t0 : Z) (w : World)
    (pid d : Z) :
  spawnPid env = Some pid ->
  stdoutAfter env = Some d ->
  d < CLAUDE_TIMEOUT_MS ->
  let reply := eval (callClaude env opts t0) w in
  let w' := exec (callClaude env opts t0) w in
  (stdoutText env = None -> reply = Normal SPAWN_ERROR_REPLY)
  /\ (forall output, stdoutText env = Some output ->
        (exitCode env <> 0 ->
           session w' = session w
           /\ (stderrText env <> [] -> reply = Normal (lit "Error: " ++ stderrText env))
           /\ (stderrText env = [] ->
                 reply = Normal (lit "Error: Claude exited with code "
                                 ++ lit (pretty (exitCode env)))))
        /\ (exitCode env = 0 ->
              (parseJSON env output = None -> reply = Normal (trim output))
              /\ (forall json, parseJSON env output = Some json ->
                    (json_result json = None \/ json_result json = Some [] ->
                       reply = Normal (lit "No response"))
                    /\ (forall r, json_result json = Some r -> r <> [] ->
                          reply = Normal r)))).
Proof.
  intros Hspawn Hafter Hlt reply w'.
  assert (Hrace : raceStdout env =
                  match stdoutText env with Some o => Resolved o | None => Rejected end).
  { unfold raceStdout. rewrite Hafter.
    replace (d <? CLAUDE_TIMEOUT_MS) with true by (symmetry; apply Z.ltb_lt; exact Hlt).
    reflexivity. }
  unfold reply, w', exec, eval, callClaude, awaitClaude, registerChildPid,
    unregisterChildPid, loadChildPids, saveChildPids, assignSessionId, getSession,
    setSession, saveSession, bind, ret.
  rewrite Hspawn, Hrace. split.
  - intros ->. reflexivity.
  - intros output ->. split.
    + intros Hcode. apply Z.eqb_neq in Hcode. rewrite Hcode. simpl.
      split; [reflexivity |]. split.
      * intros Herr. destruct (stderrText env); [congruence | reflexivity].
      * intros ->. reflexivity.
    + intros Hcode. apply Z.eqb_eq in Hcode. rewrite Hcode. simpl. split.
      * intros ->. reflexivity.
      * intros json ->.
        destruct (json_session_id json) as [id |];
          [destruct (negb _ && negb (internal opts)) |];
          simpl;
          (split;
           [ intros [Hr | Hr]; rewrite Hr; reflexivity
           | intros r -> Hne; destruct r; [congruence | reflexivity] ]).
Qed.

(** An assistant that exits with status 2 and says nothing. *)
Lemma callClaude_replies_witness :
  spawnPid failingProcess = Some 4242
  /\ stdoutAfter failingProcess = Some 50
  /\ 50 < CLAUDE_TIMEOUT_MS
  /\ exitCode failingProcess <> 0
  /\ eval (callClaude failingProcess (mkOptions true false) 0) (bootWorld 0)
     = Normal (lit "Error: Claude exited with code 2").
Proof.
  assert (Hlt : 50 < CLAUDE_TIMEOUT_MS) by reflexivity.
  assert (Hcode : exitCode failingProcess <> 0) by discriminate.
  destruct (callClaude_replies failingProcess (mkOptions true false) 0 (bootWorld 0)
              4242 50 eq_refl eq_refl Hlt) as [_ H].
  destruct (H [] eq_refl) as [Herr _].
  destruct (Herr Hcode) as (_ & _ & Hreply).
  split; [reflexivity |]. split; [reflexivity |]. split; [exact Hlt |].
  split; [exact Hcode |]. exact (Hreply eq_refl).
Defined.

(** ** Splitting a long reply *)
















(** ** Instance lock *)

(** X16. [acquireLock] is refused exactly when the lock file is not empty,
    its content parses to a process id, and that process is running; a
    refusal leaves the file as it is. In every other case (no file, an
    empty file, unreadable content, a dead owner) the caller gets the lock
    and the file then holds the caller's process id. *)
Theorem acquireLock_refused_iff_owner_runs (env : LockEnv) (lockFile : option jsstring) :
  (fst (acquireLock env lockFile) = false <->
     exists content pid,
       lockFile = Some content /\ content <> []
       /\ parseInt env content = Some pid /\ pidAlive env pid = true)
  /\ (fst (acquireLock env lockFile) = false -> snd (acquireLock env lockFile) = lockFile)
  /\ (fst (acquireLock env lockFile) = true ->
        snd (acquireLock env lockFile) = Some (pidText (selfPid env))).
Proof.
  unfold acquireLock.
  destruct lockFile as [[| c content] |]; simpl.
  - split; [| split; [discriminate | reflexivity]].
    split; [discriminate | intros (x & pid & [= <-] & Hne & _); congruence].
  - destruct (parseInt env (c :: content)) as [pid |] eqn:Hparse.
    + destruct (pidAlive env pid) eqn:Halive; simpl.
      * split; [| split; [reflexivity | discriminate]].
        split; [intros _ | reflexivity].
        exists (c :: content), pid. repeat split; [discriminate | exact Hparse | exact Halive].
      * split; [| split; [discriminate | reflexivity]].
        split; [discriminate |].
        intros (x & pid' & [= <-] & _ & Hp & Ha). congruence.
    + split; [| split; [discriminate | reflexivity]].
      split; [discriminate |].
      intros (x & pid' & [= <-] & _ & Hp & _). congruence.
  - split; [| split; [discriminate | reflexivity]].
    split; [discriminate | intros (x & pid & [=] & _)].
Qed.

(** A lock left behind by a process that died. *)
Lemma acquireLock_refused_iff_owner_runs_witness :
  let env := {| parseInt := fun _ => Some 99; pidAlive := fun _ => false; selfPid := 4242 |} in
  fst (acquireLock env (Some (lit "99"))) = true
  /\ snd (acquireLock env (Some (lit "99"))) = Some (lit "4242").
Proof.
  intros env.
  assert (H : fst (acquireLock env (Some (lit "99"))) = true) by reflexivity.
  split; [exact H |].
  destruct (acquireLock_refused_iff_owner_runs env (Some (lit "99"))) as (_ & _ & Hfile).
  rewrite (Hfile H). reflexivity.
Defined.

(** X17. The lock excludes a second instance for as long as the first one
    runs. Suppose the second instance reads process ids the way the first
    one writes them, and the first one's id text is not empty. Once the
    first instance holds the lock, the second is refused while the first
    runs, and the file keeps naming the first; when the first has died
    without releasing, or has released the lock, the second gets it. *)
Theorem lock_excludes_second_instance (first second : LockEnv) (lockFile : option jsstring) :
  fst (acquireLock first lockFile) = true ->
  pidText (selfPid first) <> [] ->
  parseInt second (pidText (selfPid first)) = Some (selfPid first) ->
  let held := snd (acquireLock first lockFile) in
  (pidAlive second (selfPid first) = true ->
     acquireLock second held = (false, Some (pidText (selfPid first))))
  /\ (pidAlive second (selfPid first) = false ->
        acquireLock second held = (true, Some (pidText (selfPid second))))
  /\ acquireLock second (releaseLock held) = (true, Some (pidText (selfPid second))).
Proof.
  intros Hgot Hne Hparse held.
  assert (Hheld : held = Some (pidText (selfPid first))).
  { unfold held. apply acquireLock_refused_iff_owner_runs. exact Hgot. }
  rewrite Hheld. unfold acquireLock.
  destruct (pidText (selfPid first)) as [| c content] eqn:Htext; [congruence |].
  rewrite Hparse. split; [| split].
  - intros ->. reflexivity.
  - intros ->. reflexivity.
  - reflexivity.
Qed.

(** Process 100 starts first, process 200 starts while 100 runs. *)
Lemma lock_excludes_second_instance_witness :
  let first := {| parseInt := parsePids; pidAlive := fun _ => false; selfPid := 100 |} in
  let second := {| parseInt := parsePids; pidAlive := fun pid => pid =? 100; selfPid := 200 |} in
  fst (acquireLock first None) = true
  /\ pidText (selfPid first) <> []
  /\ parseInt second (pidText (selfPid first)) = Some (selfPid first)
  /\ pidAlive second (selfPid first) = true
  /\ acquireLock second (snd (acquireLock first None)) = (false, Some (lit "100")).
Proof.
  intros first second.
  assert (H1 : fst (acquireLock first None) = true) by reflexivity.
  assert (H2 : pidText (selfPid first) <> []) by (vm_compute; discriminate).
  assert (H3 : parseInt second (pidText (selfPid first)) = Some (selfPid first))
    by (vm_compute; reflexivity).
  assert (H4 : pidAlive second (selfPid first) = true) by reflexivity.
  destruct (lock_excludes_second_instance first second None H1 H2 H3) as (Hrefused & _ & _).
  split; [exact H1 |]. split; [exact H2 |]. split; [exact H3 |]. split; [exact H4 |].
  exact (Hrefused H4).
Defined.

(** X18. A refused start does not leave the lock alone: the exit handler
    removes the lock file of the instance that is running, so that the
    next start finds no lock and succeeds although the first instance
    still runs. *)
Theorem refused_start_removes_the_lock (env next : LockEnv) (lockFile : option jsstring) :
  fst (acquireLock env lockFile) = false ->
  startRelay env lockFile = (false, None)
  /\ fst (startRelay next (snd (startRelay env lockFile))) = true
  /\ snd (startRelay next (snd (startRelay env lockFile))) = Some (pidText (selfPid next)).
Proof.
  intros Hrefused. unfold startRelay at 1 3 5.
  destruct (acquireLock env lockFile) as [acquired file]. simpl in Hrefused. subst acquired.
  repeat split.
Qed.

(** Process 100 runs; process 200 is refused; process 300 then starts. *)
Lemma refused_start_removes_the_lock_witness :
  let second := {| parseInt := parsePids; pidAlive := fun pid => pid =? 100; selfPid := 200 |} in
  let third := {| parseInt := parsePids; pidAlive := fun pid => pid =? 100; selfPid := 300 |} in
  fst (acquireLock second (Some (lit "100"))) = false
  /\ startRelay second (Some (lit "100")) = (false, None)
  /\ fst (startRelay third (snd (startRelay second (Some (lit "100"))))) = true.
Proof.
  intros second third.
  assert (H : fst (acquireLock second (Some (lit "100"))) = false) by (vm_compute; reflexivity).
  destruct (refused_start_removes_the_lock second third (Some (lit "100")) H)
    as (H1 & H2 & _).
  split; [exact H |]. split; [exact H1 | exact H2].
Defined.

(** ** The text message handler *)

Lemma callClaude_normal (env : ProcEnv) (opts : ClaudeOptions) (t0 : Z) (w : World) :
  exists reply, fst (callClaude env opts t0 w) = Normal reply.
Proof.
  unfold callClaude. destruct (spawnPid env) as [pid |]; [| eexists; reflexivity].
  unfold bind at 1 2. destruct (registerChildPid pid w) as [u w1].
  destruct (awaitClaude env opts pid t0 w1) as [[reply | err] w2];
    unfold bind; destruct (unregisterChildPid pid w2); eexists; reflexivity.
Qed.

Lemma handleText_admitted (cfg : Config) (env : ProcEnv) text userName userId chat now
    during t0 (r : Relay) :
  isUserBusy (Some userId) (activeRequests r) = false ->
  let w1 := run cfg during
              (exec (trackMessage cfg text userName userId chat now) (world r)) in
  exists response,
    eval (callClaude env (mkOptions true false) t0) w1 = Normal response
    /\ handleText cfg env true text userName userId chat now during t0 r =
         ({| world := exec (trackResponse response)
                           (exec (callClaude env (mkOptions true false) t0) w1);
             activeRequests :=
               markUserFree (Some userId) (markUserBusy (Some userId) (activeRequests r)) |},
          Some response).
Proof.
  intros Hfree w1. unfold handleText. rewrite Hfree. cbn [negb]. fold w1.
  destruct (callClaude_normal env (mkOptions true false) t0 w1) as [response Hresp].
  exists response. unfold eval, exec.
  destruct (callClaude env (mkOptions true false) t0 w1) as [result w2].
  simpl in Hresp. subst result. split; reflexivity.
Qed.

Lemma handleText_dropped (cfg : Config) (env : ProcEnv) text userName userId chat now
    during t0 (r : Relay) :
  isUserBusy (Some userId) (activeRequests r) = false ->
  handleText cfg env false text userName userId chat now during t0 r =
    ({| world := world r;
        activeRequests := markUserBusy (Some userId) (activeRequests r) |}, None).
Proof. intros Hfree. unfold handleText. rewrite Hfree. reflexivity. Qed.

(** X19. The gate around a text message. A message from a user who is
    busy changes nothing, neither the session nor the table, and is
    answered with the request to wait. An admitted message whose typing
    notification goes through leaves its sender free again when the
    handler is done, whatever the assistant did and whatever other users
    recorded in the meantime. When the typing notification fails, nothing
    is recorded and nothing is answered, and the sender (a user with an
    id) stays marked busy: the next message of that sender is answered
    with the request to wait. In no case do the handler's own writes
    change whether another user is busy. *)
Theorem handleText_gate (cfg : Config) (env : ProcEnv) (typingOk : bool)
    (text userName : jsstring) (userId chat : string) (now : Z) (during : list Op)
    (t0 : Z) (r : Relay) :
  let after := fst (handleText cfg env typingOk text userName userId chat now during t0 r) in
  (isUserBusy (Some userId) (activeRequests r) = true ->
     handleText cfg env typingOk text userName userId chat now during t0 r
     = (r, Some WAIT_REPLY))
  /\ (isUserBusy (Some userId) (activeRequests r) = false -> typingOk = true ->
        isUserBusy (Some userId) (activeRequests after) = false)
  /\ (isUserBusy (Some userId) (activeRequests r) = false -> typingOk = false ->
        world after = world r
        /\ snd (handleText cfg env typingOk text userName userId chat now during t0 r) = None
        /\ (truthy (Some userId) = true ->
              isUserBusy (Some userId) (activeRequests after) = true
              /\ forall env' ok' text' now' during' t0',
                   handleText cfg env' ok' text' userName userId chat now' during' t0' after
                   = (after, Some WAIT_REPLY)))
  /\ (forall other, other <> Some userId ->
        isUserBusy other (activeRequests after) = isUserBusy other (activeRequests r)).
Proof.
  intros after. split; [| split; [| split]].
  - intros Hbusy. unfold handleText. rewrite Hbusy. reflexivity.
  - intros Hfree ->. unfold after.
    destruct (handleText_admitted cfg env text userName userId chat now during t0 r Hfree)
      as (response & _ & ->).
    cbn [fst activeRequests]. apply isUserBusy_markUserFree.
  - intros Hfree ->. unfold after. rewrite (handleText_dropped _ _ _ _ _ _ _ _ _ _ Hfree).
    cbn [fst snd world activeRequests]. split; [reflexivity |]. split; [reflexivity |].
    intros Htruthy.
    assert (Hbusy : isUserBusy (Some userId)
                      (markUserBusy (Some userId) (activeRequests r)) = true)
      by (apply isUserBusy_markUserBusy; exact Htruthy).
    split; [exact Hbusy |].
    intros env' ok' text' now' during' t0'. unfold handleText.
    cbn [activeRequests]. rewrite Hbusy. reflexivity.
  - intros other Hne. unfold after.
    destruct (isUserBusy (Some userId) (activeRequests r)) eqn:Hbusy.
    + unfold handleText. rewrite Hbusy. reflexivity.
    + destruct typingOk.
      * destruct (handleText_admitted cfg env text userName userId chat now during t0 r Hbusy)
          as (response & _ & ->).
        cbn [fst activeRequests]. rewrite isUserBusy_other_markUserFree by exact Hne.
        apply isUserBusy_other_markUserBusy. exact Hne.
      * rewrite (handleText_dropped _ _ _ _ _ _ _ _ _ _ Hbusy).
        cbn [fst activeRequests]. apply isUserBusy_other_markUserBusy. exact Hne.
Qed.

(** The owner's message is admitted, but the typing notification fails. *)
Lemma handleText_gate_witness :
  let r := {| world := bootWorld 0; activeRequests := ∅ |} in
  let after := fst (handleText defaultConfig hungProcess false (lit "ping") (lit "Mot")
                      "8493500703" "8493500703" 5 [] 6 r) in
  isUserBusy (Some "8493500703"%string) (activeRequests r) = false
  /\ truthy (Some "8493500703"%string) = true
  /\ world after = world r
  /\ isUserBusy (Some "8493500703"%string) (activeRequests after) = true
  /\ handleText defaultConfig promptProcess true (lit "again") (lit "Mot")
       "8493500703" "8493500703" 9 [] 10 after = (after, Some WAIT_REPLY).
Proof.
  intros r after.
  assert (Hfree : isUserBusy (Some "8493500703"%string) (activeRequests r) = false)
    by reflexivity.
  destruct (handleText_gate defaultConfig hungProcess false (lit "ping") (lit "Mot")
              "8493500703" "8493500703" 5 [] 6 r) as (_ & _ & Hdrop & _).
  destruct (Hdrop Hfree eq_refl) as (Hworld & _ & Hstuck).
  destruct (Hstuck eq_refl) as [Hbusy Hnext].
  split; [exact Hfree |]. split; [reflexivity |]. split; [exact Hworld |].
  split; [exact Hbusy |]. apply Hnext.
Defined.



(** ** The /new command, shutdown, and the archival job *)

(** X21. [/new] closes whatever session is live and reports its message
    count when that is positive. A second [/new] right after a first
    always answers that there is no active session, and starts no archival
    job. *)
Theorem commandNew_twice (cfg : Config) (now later : Z) (w : World) :
  let w1 := exec (commandNew cfg now) w in
  let w2 := exec (commandNew cfg later) w1 in
  session w1 = newSessionState now
  /\ (messageCount (session w) > 0 ->
        eval (commandNew cfg now) w =
          lit "Session closed (" ++ lit (pretty (messageCount (session w)))
          ++ lit " messages). Starting fresh.")
  /\ eval (commandNew cfg later) w1 = lit "No active session to close."
  /\ background w2 = background w1
  /\ session w2 = newSessionState later.
Proof.
  intros w1 w2.
  assert (Hrun : forall t w0,
            commandNew cfg t w0 =
              ((if messageCount (session w0) >? 0
                then lit "Session closed (" ++ lit (pretty (messageCount (session w0)))
                     ++ lit " messages). Starting fresh."
                else lit "No active session to close."),
               exec (closeSession cfg "manual" t) w0)).
  { intros t w0. unfold commandNew, bind, ret, exec. rewrite closeSession_run. reflexivity. }
  assert (Hw1 : w1 = exec (closeSession cfg "manual" now) w)
    by (unfold w1, exec at 1; rewrite Hrun; reflexivity).
  assert (Hs1 : session w1 = newSessionState now)
    by (rewrite Hw1; unfold exec; rewrite closeSession_run; reflexivity).
  split; [exact Hs1 |]. split; [| split; [| split]].
  - intros Hpos. unfold eval. rewrite Hrun. simpl fst.
    replace (messageCount (session w) >? 0) with true by (symmetry; apply Z.gtb_lt; lia).
    reflexivity.
  - unfold eval. rewrite Hrun, Hs1. reflexivity.
  - unfold w2, exec at 1. rewrite Hrun. simpl snd. unfold exec.
    rewrite closeSession_run. simpl background. rewrite Hs1. simpl.
    rewrite andb_false_r. apply app_nil_r.
  - unfold w2, exec at 1. rewrite Hrun. simpl snd. unfold exec.
    rewrite closeSession_run. reflexivity.
Qed.

(** Two messages, then [/new] twice. *)
Lemma commandNew_twice_witness :
  let w := run defaultConfig [ping 0; ping 1] (bootWorld 0) in
  messageCount (session w) > 0
  /\ eval (commandNew defaultConfig 2) w = lit "Session closed (2 messages). Starting fresh."
  /\ eval (commandNew defaultConfig 3) (exec (commandNew defaultConfig 2) w)
     = lit "No active session to close.".
Proof.
  intros w.
  assert (Hpos : messageCount (session w) > 0) by reflexivity.
  destruct (commandNew_twice defaultConfig 2 3 w) as (_ & Hfirst & Hsecond & _).
  split; [exact Hpos |]. split; [| exact Hsecond].
  rewrite (Hfirst Hpos). reflexivity.
Defined.

(** X22. Shutdown clears the child registry and releases the lock without
    sending any signal; and since the registry is then empty, the orphan
    cleanup of the next start sends no signal either and changes nothing,
    even to children that are still running. *)
Theorem shutdown_signals_no_child (lockFile : option jsstring) (probe : Z -> Z -> bool)
    (t : Z) (w : World) :
  let w1 := exec (shutdown lockFile) w in
  eval (shutdown lockFile) w = None
  /\ childPids w1 = []
  /\ signals w1 = signals w
  /\ session w1 = session w
  /\ exec (cleanupOrphanedProcesses probe t) w1 = w1.
Proof.
  intros w1. repeat split.
Qed.

Lemma substring0_firstn (u : jsstring) (k : Z) :
  0 <= k -> substring0 u k = firstn (Z.to_nat k) u.
Proof.
  intros Hk. unfold substring0, js_length.
  destruct (Z_le_gt_dec k (Z.of_nat (length u))) as [Hle | Hgt].
  - f_equal. lia.
  - replace (Z.to_nat (Z.min (Z.max k 0) (Z.of_nat (length u)))) with (length u) by lia.
    rewrite firstn_all, firstn_all2 by lia. reflexivity.
Qed.

(** The length of the summary prompt, and what it depends on. *)
Lemma summaryPrompt_length (t : jsstring) :
  js_length (summaryPrompt t) = js_length (summaryPrompt []) + Z.min 8000 (js_length t)
  /\ summaryPrompt t = summaryPrompt (firstn (Z.to_nat 8000) t).
Proof.
  unfold summaryPrompt. rewrite !substring0_firstn by lia. split.
  - unfold js_length. rewrite !length_app, length_firstn, firstn_nil. simpl length. lia.
  - rewrite firstn_firstn, Nat.min_id. reflexivity.
Qed.

(** X23. The archival job. The row it inserts carries the whole closed
    transcript, the message count and the close reason. When the insert
    fails the job stops there: no summary is requested and nothing is
    updated. The summary prompt carries only the first 8000 characters of
    the transcript, so its length is that of the fixed instruction plus
    at most 8000. *)
Theorem archive_job_bounded (closedAt : Z) (r : StoreReplies) (j : ArchiveJob) :
  (exists row rest,
     runArchiveJob closedAt r j = InsertSession row :: rest
     /\ row_transcript row = transcript (job_snapshot j)
     /\ message_count row = job_count j
     /\ close_reason row = job_reason j)
  /\ (insertReply r = None -> length (runArchiveJob closedAt r j) = 1%nat)
  /\ (forall prompt, In (SummaryRequest prompt) (runArchiveJob closedAt r j) ->
        prompt = summaryPrompt (firstn (Z.to_nat 8000) (transcript (job_snapshot j)))
        /\ js_length prompt <= js_length (summaryPrompt []) + 8000).
Proof.
  split; [| split].
  - unfold runArchiveJob. eexists. eexists. repeat split.
  - intros Hfail. unfold runArchiveJob. rewrite Hfail. reflexivity.
  - intros prompt Hin. unfold runArchiveJob in Hin.
    destruct Hin as [Hin | Hin]; [discriminate |].
    destruct (insertReply r); [| contradiction].
    destruct Hin as [[= <-] | [Hin | []]]; [| discriminate].
    destruct (summaryPrompt_length (transcript (job_snapshot j))) as [Hlen Heq].
    split; [exact Heq | lia].
Qed.

(** A store that refuses the insert. *)
Lemma archive_job_bounded_witness :
  let r := {| insertReply := None; summaryReply := [] |} in
  let j := {| job_snapshot := session (run defaultConfig [ping 0] (bootWorld 0));
              job_count := 1; job_reason := "manual" |} in
  insertReply r = None
  /\ length (runArchiveJob 9 r j) = 1%nat.
Proof.
  intros r j.
  destruct (archive_job_bounded 9 r j) as (_ & H & _).
  split; [reflexivity | exact (H eq_refl)].
Defined.

(** X24. In every world a booted relay reaches, a session holds messages
    exactly when it has participants, and then its chat is known: with no
    message recorded the participant list is empty, and with a message
    recorded neither the participant list nor the chat is missing. *)
Theorem session_has_messages_iff_participants (cfg : Config) (w : World) :
  reachable cfg w ->
  (messageCount (session w) = 0 <-> userIds (session w) = [])
  /\ (messageCount (session w) > 0 -> chatId (session w) <> None).
Proof.
  intros Hreach.
  assert (Hinv : 0 <= messageCount (session w)
                 /\ (messageCount (session w) = 0 -> userIds (session w) = [])
                 /\ (messageCount (session w) > 0 ->
                       userIds (session w) <> [] /\ chatId (session w) <> None)).
  { induction Hreach as [now | w op Hreach IH].
    - simpl. split; [lia |]. split; [reflexivity | lia].
    - destruct IH as (Hpos & Hzero & Hsome).
      destruct op as [text userName userId chat now | response | reason now | id now];
        unfold step.
      + rewrite trackMessage_session.
        assert (Hs : 0 <= messageCount (afterClosure cfg now (session w))).
        { unfold afterClosure. destruct (shouldCloseSession cfg now (session w));
            [simpl; lia | exact Hpos]. }
        simpl. split; [lia |]. split; [lia |]. intros _. split; [| discriminate].
        destruct (includes (userIds (afterClosure cfg now (session w))) userId) eqn:Hin.
        * apply includes_In in Hin. intros Hnil. rewrite Hnil in Hin. exact Hin.
        * intros Hnil. apply app_eq_nil in Hnil. destruct Hnil as [_ Hnil]. discriminate.
      + rewrite trackResponse_session. simpl. auto.
      + rewrite closeSession_session. simpl. split; [lia |]. split; [reflexivity | lia].
      + simpl. auto. }
  destruct Hinv as (Hpos & Hzero & Hsome). split.
  - split; [exact Hzero |]. intros Hnil.
    destruct (Z.eq_dec (messageCount (session w)) 0) as [E | NE]; [exact E |].
    destruct (Hsome ltac:(lia)) as [Hne _]. contradiction.
  - intros Hgt. apply Hsome. exact Hgt.
Qed.

(** After the first message. *)
Lemma session_has_messages_iff_participants_witness :
  let w := run defaultConfig [ping 0] (bootWorld 0) in
  reachable defaultConfig w
  /\ messageCount (session w) > 0
  /\ chatId (session w) <> None.
Proof.
  intros w.
  assert (Hreach : reachable defaultConfig w)
    by (apply (reachable_run defaultConfig [ping 0]); apply reach_boot).
  assert (Hpos : messageCount (session w) > 0) by reflexivity.
  split; [exact Hreach |]. split; [exact Hpos |].
  exact (proj2 (session_has_messages_iff_participants defaultConfig w Hreach) Hpos).
Defined.
